(** * Matching OCR-scanned catalogue cards against bibliographic records

    A shallow embedding of [src/matching/index-search-bib.py] (with the
    [load_ocr] helper of [src/NER/helper.py]) and the properties of its
    distance budget, query builder, reverse verifier, selector and main
    loop. *)

From Stdlib Require Import ZArith NArith QArith Qround Lia Bool Ascii String DecimalString.
From stdpp Require Import base option list sorting gmap strings.

Local Open Scope Z_scope.

(** ** Python values *)

(** A Python [str] is a sequence of Unicode code points; [len] counts code
    points, so a code point is a number and a [str] is a list of them. *)
Definition str : Type := list N.

(** The text of an ASCII literal of the source. *)
Definition lit (s : string) : str := N_of_ascii <$> list_ascii_of_string s.

(** [str(n)] for an integer [n]: its decimal digits, with a minus sign when
    negative. *)
Definition py_str_int (n : Z) : str := lit (NilZero.string_of_int (Z.to_int n)).

(** Python exceptions the driver can meet. *)
Inductive exn : Type :=
  | ValueError
  | KeyError
  | IndexError
  | AttributeError
  | TimeoutError
  | ZeroDivisionError
  | OtherError (name : string).

(** A computation either returns a value or raises. *)
Inductive result (A : Type) : Type :=
  | Ok (a : A)
  | Raise (e : exn).
Arguments Ok {A} a.
Arguments Raise {A} e.

#[global] Instance result_ret : MRet result := fun A a => Ok a.
#[global] Instance result_bind : MBind result := fun A B f m =>
  match m with
  | Ok a => f a
  | Raise e => Raise e
  end.

#[global] Instance exn_eq_dec : EqDecision exn.
Proof. solve_decision. Defined.

(** ** Slicing: [s[a:b]] *)

(** How CPython adjusts one bound of a slice of a sequence of length [n]: a
    negative bound counts from the end, and everything is clamped to
    [0..n]. *)
Definition adjust_index (n i : Z) : Z :=
  if i <? 0 then Z.max 0 (i + n) else Z.min i n.

Definition py_slice {A : Type} (s : list A) (a b : Z) : list A :=
  let n := Z.of_nat (length s) in
  let lo := adjust_index n a in
  let hi := adjust_index n b in
  take (Z.to_nat (hi - lo)) (drop (Z.to_nat lo) s).

(** ** Whitespace: [str.split()], [str.split(sep)], [str.strip()] *)

(** The code points for which [str.isspace] holds. *)
Definition whitespace : list N :=
  [9; 10; 11; 12; 13; 28; 29; 30; 31; 32; 133; 160; 5760;
   8192; 8193; 8194; 8195; 8196; 8197; 8198; 8199; 8200; 8201; 8202;
   8232; 8233; 8239; 8287; 12288]%N.

Definition isspace (c : N) : bool := bool_decide (c ∈ whitespace).

(** [s.split()]: maximal runs of non-whitespace code points, in order.
    [cur] is the run being read. *)
Fixpoint split_go (cur : str) (s : str) : list str :=
  match s with
  | [] => match cur with [] => [] | _ => [cur] end
  | c :: s' =>
      if isspace c
      then match cur with [] => split_go [] s' | _ => cur :: split_go [] s' end
      else split_go (cur ++ [c]) s'
  end.

Definition split (s : str) : list str := split_go [] s.

(** [s.split(sep)] for a one-code-point separator: every separator ends a
    part, empty parts are kept, and there is always at least one part. *)
Fixpoint split_on_go (sep : N) (cur : str) (s : str) : list str :=
  match s with
  | [] => [cur]
  | c :: s' =>
      if N.eqb c sep then cur :: split_on_go sep [] s'
      else split_on_go sep (cur ++ [c]) s'
  end.

Definition split_on (sep : N) (s : str) : list str := split_on_go sep [] s.

Fixpoint lstrip (s : str) : str :=
  match s with
  | [] => []
  | c :: s' => if isspace c then lstrip s' else s
  end.

Definition strip (s : str) : str := reverse (lstrip (reverse (lstrip s))).

(** ** The per-field distance budget *)

(** [int(n * 0.25)] for a length [n]: the product with a power of two is
    exact in binary floating point, and [int] truncates, so this is the
    integer quotient by 4. *)
Definition int_times_threshold (n : Z) : Z := n / 4.

Definition get_max_dist_limit (limit : Z) (text : str) : Z :=
  let n := Z.of_nat (length text) in
  if n <? 6 then 1
  else if n <? 11 then 2
  else Z.min (int_times_threshold n) limit.

(** [get_max_dist(text)] with the default [threshold=0.25], [limit=6], the
    only way the driver calls it. *)
Definition get_max_dist (text : str) : Z := get_max_dist_limit 6 text.

(** ** Data of the pipeline *)

(** An occurrence reported by [fuzzysearch.find_near_matches]. *)
Record Match : Type := mkMatch {
  start : Z;
  end_ : Z;
  dist : Z;
  matched : str }.

(** A field span, the dict [{"label", "text", "from", "to"}] that
    [match_candidate] builds. *)
Record Field : Type := mkField {
  label : str;
  text : str;
  from : Z;
  to : Z }.

(** [whoosh.query.FuzzyTerm(fieldname, text, maxdist=.., prefixlength=..)]. *)
Record FuzzyTerm : Type := mkFuzzyTerm {
  fieldname : str;
  term_text : str;
  maxdist : Z;
  prefixlength : Z }.

(** [whoosh.query.Or(subqueries)]. *)
Inductive Query : Type :=
  | Or (subqueries : list FuzzyTerm).

(** A hit of the index search; the driver only reads [r["record_id"]]. *)
Record Hit : Type := mkHit { record_id : str }.

(** A call that takes wall-clock time: how long it runs when nothing cuts it
    short, in milliseconds, and what it then returns. *)
Record Timed (A : Type) : Type := mkTimed {
  elapsed_ms : Z;
  outcome : A }.
Arguments mkTimed {A} elapsed_ms outcome.
Arguments elapsed_ms {A} t.
Arguments outcome {A} t.

(** A record document of the bib store: the items of the JSON object, raw
    field name to raw field text, in document order. *)
Definition DbRecord : Type := list (str * str).

(** The alignments dict of a card, label to the texts under that label, in
    insertion order. *)
Definition Alignments : Type := list (str * list str).

#[global] Instance Match_eq_dec : EqDecision Match.
Proof. solve_decision. Defined.
#[global] Instance Field_eq_dec : EqDecision Field.
Proof. solve_decision. Defined.
#[global] Instance FuzzyTerm_eq_dec : EqDecision FuzzyTerm.
Proof. solve_decision. Defined.

(** ** What the driver calls but does not define

    Built-ins and third-party code ([int], [str.lower], fuzzysearch, whoosh)
    and modules of the repository that the driver imports
    ([src.helper], [src.alignment.align_fuzzysearch]). *)
Record Externals : Type := mkExternals {
  (** [int(s)]; [None] is [ValueError]. *)
  py_int : str -> option Z;
  (** [s.lower()]. *)
  lower : str -> str;
  (** [find_near_matches(pattern, haystack, max_l_dist=d)]. *)
  find_near_matches : str -> str -> Z -> result (list Match);
  (** [helper.generate_db_records(raw_label, raw_text).items()], taken as
      returning for every field. *)
  generate_db_records : str -> str -> list (str * str);
  (** [correct_overlaps(fields)]. *)
  correct_overlaps : list Field -> result (list Field);
  (** [searcher.search(query, limit=None)] inside [search_phrase]: the
      hits, best first, and the time the whole call of [search_phrase] takes.
      The first argument counts the searches issued before this one, as the
      time a search takes is not a function of the query alone. *)
  searcher_search : nat -> Query -> Timed (list Hit) }.

(** A loop [for x in xs: body] over a state, where the body may raise. *)
Fixpoint for_each {S A : Type} (body : S -> A -> result S) (s : S) (xs : list A)
  : result S :=
  match xs with
  | [] => Ok s
  | x :: xs' => s' ← body s x; for_each body s' xs'
  end.

(** ** Query builder ([search_phrase], lines 50-76) *)

Definition Author : str := lit "Author".

(** The terms appended for one word of a text under [label]. *)
Definition word_terms (E : Externals) (label word : str) : list FuzzyTerm :=
  if decide (label = Author)
  then [mkFuzzyTerm (lit "author1") word 2 0; mkFuzzyTerm (lit "author2") word 2 0]
  else [mkFuzzyTerm (lower E label) word 2 0].

(** [[word for word in text.split() if len(word) > 3]]. *)
Definition long_words (text : str) : list str :=
  filter (fun word => (3 < length word)%nat) (split text).

(** The three nested loops, appending to [fuzzy_terms]; [max_dist] is
    computed for every text and not used. *)
Definition fuzzy_terms_of (E : Externals) (alignments : Alignments) : list FuzzyTerm :=
  fold_left (fun fuzzy_terms '(label, texts) =>
    fold_left (fun fuzzy_terms text =>
      let max_dist := get_max_dist text in
      let words := long_words text in
      fold_left (fun fuzzy_terms word => fuzzy_terms ++ word_terms E label word)
                words fuzzy_terms)
      texts fuzzy_terms)
    alignments [].

Definition build_query (E : Externals) (alignments : Alignments) : Query :=
  Or (fuzzy_terms_of E alignments).

(** The query as the specification words it: every whitespace-separated
    token longer than 3 gives one term per index field of its label, with
    tolerance 2 and no prefix; the label [Author] has the two fields
    [author1] and [author2], any other label its own lowercase name. *)
Definition spec_fields (E : Externals) (label : str) : list str :=
  if decide (label = Author) then [lit "author1"; lit "author2"]
  else [lower E label].

Definition spec_terms (E : Externals) (alignments : Alignments) : list FuzzyTerm :=
  '(label, texts) ← alignments;
  text ← texts;
  token ← filter (fun token => ¬ (length token <= 3)%nat) (split text);
  field ← spec_fields E label;
  [mkFuzzyTerm field token 2 0].

(** [tokens s ts]: [ts] lists, in order, the maximal runs of code points of
    [s] that are not whitespace. *)
Inductive tokens : str -> list str -> Prop :=
  | tokens_blank (blank : str) :
      Forall (fun c => isspace c = true) blank ->
      tokens blank []
  | tokens_word (blank word rest : str) (ts : list str) :
      Forall (fun c => isspace c = true) blank ->
      word ≠ [] ->
      Forall (fun c => isspace c = false) word ->
      (rest = [] \/ exists c rest', rest = c :: rest' /\ isspace c = true) ->
      tokens rest ts ->
      tokens (blank ++ word ++ rest) (word :: ts).

(** Modelled from the spec: the decorator [timeout] of
    [src.alignment.timeout], which is not among the sources.  A call that
    would run for the whole budget is abandoned with [TimeoutError]; a call
    that ends earlier returns normally. *)
Definition timeout {A : Type} (seconds : Z) (call : Timed A) : result A :=
  if seconds * 1000 <=? elapsed_ms call then Raise TimeoutError
  else Ok (outcome call).

(** [search_phrase(searcher, alignments, ocr)] under [@timeout(60)]; [calls]
    is the number of searches issued so far. *)
Definition search_phrase (E : Externals) (calls : nat) (alignments : Alignments)
    (ocr : str) : result (list Hit) :=
  timeout 60 (searcher_search E calls (build_query E alignments)).

(** ** Distance-bounded matcher and reverse verifier ([match_candidate]) *)

(** [min(matches, key=lambda x: x.dist)] on a non-empty list whose first
    element is [best]: a later element replaces the current one only when
    its key is strictly smaller. *)
Fixpoint min_dist_from (best : Match) (matches : list Match) : Match :=
  match matches with
  | [] => best
  | m :: matches' =>
      if dist m <? dist best then min_dist_from m matches'
      else min_dist_from best matches'
  end.

(** [min(matches, key=lambda x: x.dist, default=None)]. *)
Definition lowest_match (matches : list Match) : option Match :=
  match matches with
  | [] => None
  | m :: matches' => Some (min_dist_from m matches')
  end.

(** The distance-bounded matcher: the search and the choice of the lowest
    occurrence, as the body of the inner loop performs them ([None]: the
    field is skipped, on [ValueError] or with no occurrence). *)
Definition find_best (E : Externals) (pattern haystack : str) (max_dist : Z)
  : result (option Match) :=
  match find_near_matches E pattern haystack max_dist with
  | Raise ValueError => Ok None
  | Raise e => Raise e
  | Ok matches => Ok (lowest_match matches)
  end.

(** One turn of the inner loop of [match_candidate].  A [Match] object is
    always truthy, so [if lowest:] only tests for [None]. *)
Definition match_field (E : Externals) (ocr : str) (fields : list Field)
    (item : str * str) : result (list Field) :=
  let '(label, text) := item in
  let max_dist := get_max_dist text in
  lowest ← find_best E text ocr max_dist;
  match lowest with
  | Some lowest =>
      Ok (fields ++ [mkField label (matched lowest) (start lowest) (end_ lowest)])
  | None => Ok fields
  end.

(** The two nested loops that fill [fields]. *)
Definition collect_fields (E : Externals) (ocr : str) (db_entries : DbRecord)
  : result (list Field) :=
  for_each (fun fields '(raw_label, raw_text) =>
              for_each (match_field E ocr) fields
                       (generate_db_records E raw_label raw_text))
           [] db_entries.

(** [line["text"] = ocr[line["from"]:line["to"]]]. *)
Definition reslice (ocr : str) (line : Field) : Field :=
  mkField (label line) (py_slice ocr (from line) (to line)) (from line) (to line).

(** A span that is a range of the card text: [0 <= from <= to <= len(ocr)]. *)
Definition in_text (ocr : str) (span : Field) : Prop :=
  0 <= from span <= to span /\ to span <= Z.of_nat (length ocr).

Definition overlaps_error : str := lit "Error during correcting overlaps".

(** [match_candidate(ocr, db_entries)]: the lines it prints and the list it
    returns.  The bare [except:] catches whatever [correct_overlaps]
    raises. *)
Definition match_candidate (E : Externals) (ocr : str) (db_entries : DbRecord)
  : result (list str * list Field) :=
  fields ← collect_fields E ocr db_entries;
  match correct_overlaps E fields with
  | Raise _ => Ok ([overlaps_error], [])
  | Ok fields => Ok ([], reslice ocr <$> fields)
  end.

(** ** Loading the OCR text ([load_ocr] of [src/NER/helper.py]) *)

Definition JOKER : N := 65533%N.

(** [UNKNOWN_CHARS], as pairs of code points, in the order of the dict. *)
Definition UNKNOWN_CHARS : list (N * N) :=
  [(8212, 45); (1013, JOKER); (8485, JOKER); (8216, JOKER); (8217, JOKER);
   (96, JOKER); (8220, 34); (9758, JOKER); (9756, JOKER); (731, 46);
   (8258, JOKER); (42843, JOKER); (42562, 122); (42560, 122); (42570, JOKER);
   (1120, JOKER); (42582, JOKER); (1124, JOKER); (1132, JOKER); (1128, JOKER);
   (1134, JOKER); (1136, JOKER); (1140, 118); (1152, 99); (42563, 122);
   (42561, 122); (42571, JOKER); (1121, 119); (42583, JOKER); (1125, JOKER);
   (1133, JOKER); (1129, JOKER); (1135, JOKER); (1137, JOKER); (1141, 118);
   (1153, 99); (1236, JOKER); (1237, JOKER); (1017, 99); (1010, 99);
   (1011, 106); (989, 102); (570, 97); (11365, 97); (582, 101); (583, 101);
   (7537, 112); (42835, 112); (42833, 112); (42841, 113); (42839, 113);
   (42847, 118)]%N.

Definition TRUNCATED_CHARS : list N := [868; 772; 830; 771; 778]%N.

(** [text.replace(a, b)] for one-code-point [a] and [b]. *)
Definition replace_char (a b : N) (text : str) : str :=
  (fun c => if N.eqb c a then b else c) <$> text.

(** [text.replace(a, "")] for a one-code-point [a]. *)
Definition remove_char (a : N) (text : str) : str :=
  filter (fun c => c ≠ a) text.

(** [load_ocr(path, txn)]: [txn.get] gives [None] for a key that is not in
    the store, and [None.decode()] raises [AttributeError].  The store is
    taken as holding the decoded texts and as answering every key: a key
    that LMDB itself refuses (an empty one, or one beyond its size limit)
    raises [lmdb.BadValsizeError] in the driver and is outside this model,
    which therefore says nothing complete about the errors of a lookup. *)
Definition load_ocr (path : str) (txn : gmap (list N) str) : result str :=
  match txn !! path with
  | None => Raise AttributeError
  | Some text =>
      let text := fold_left (fun text '(to_replace, replace_with) =>
                               replace_char to_replace replace_with text)
                            UNKNOWN_CHARS text in
      let text := fold_left (fun text to_remove => remove_char to_remove text)
                            TRUNCATED_CHARS text in
      Ok text
  end.

(** ** Parsing the input line ([parse_alignments]) *)

(** [result[label].append(v)], or [result[label] = [v]] on [KeyError]. *)
Fixpoint dict_append (d : Alignments) (label : str) (v : str) : Alignments :=
  match d with
  | [] => [(label, [v])]
  | (k, vs) :: d' =>
      if decide (k = label) then (k, vs ++ [v]) :: d'
      else (k, vs) :: dict_append d' label v
  end.

(** One turn of the loop: unpacking [alignment.split()] into three names
    raises [ValueError] unless there are exactly three tokens, and so does
    [int] on a token that is not an integer. *)
Definition parse_alignment (E : Externals) (ocr : str) (res : Alignments)
    (alignment : str) : result Alignments :=
  match split alignment with
  | [label; start; end_] =>
      match py_int E start, py_int E end_ with
      | Some a, Some b => Ok (dict_append res label (py_slice ocr a b))
      | _, _ => Raise ValueError
      end
  | _ => Raise ValueError
  end.

Definition parse_alignments (E : Externals) (alignments : list str) (ocr : str)
  : result Alignments :=
  for_each (parse_alignment E ocr) [] alignments.

(** ** The main loop ([main], lines 163-239) *)

(** What the loop carries from card to card: the counter, the two output
    texts, the lines printed, and the number of index searches issued.  The
    lines that show a duration, the memory of the process or the [repr] of
    the query are left out of [stdout]. *)
Record Run : Type := mkRun {
  nb_cards_searched : Z;
  matching_output : str;
  alignment_output : str;
  stdout : list str;
  searches : nat }.

Definition print (st : Run) (line : str) : Run :=
  mkRun (nb_cards_searched st) (matching_output st) (alignment_output st)
        (stdout st ++ [line]) (searches st).

Definition TAB : N := 9%N.
Definition LF : N := 10%N.
Definition SPACE : N := 32%N.

(** [max(match_scores)] on a non-empty list. *)
Definition py_max (xs : list Z) : Z :=
  match xs with
  | [] => 0
  | x :: xs' => fold_left Z.max xs' x
  end.

(** [np.argmax(match_scores)]: the index of the first occurrence of the
    maximum.  [best] at index [best_i] is the maximum so far, [i] the index
    of the head of [xs]. *)
Fixpoint argmax_from (best_i : nat) (best : Z) (i : nat) (xs : list Z) : nat :=
  match xs with
  | [] => best_i
  | x :: xs' =>
      if best <? x then argmax_from i x (S i) xs'
      else argmax_from best_i best (S i) xs'
  end.

Definition argmax (xs : list Z) : nat :=
  match xs with
  | [] => 0%nat
  | x :: xs' => argmax_from 0 x 1 xs'
  end.

(** [xs[i]] for a list and an index that is not negative. *)
Definition index {A : Type} (xs : list A) (i : nat) : result A :=
  match xs !! i with
  | Some x => Ok x
  | None => Raise IndexError
  end.

(** [json.loads(txn_bib.get(r["record_id"].encode()).decode())]; a missing
    key gives [None], on which [.decode()] raises [AttributeError]. *)
Definition fetch_record (txn_bib : gmap (list N) DbRecord) (r : Hit)
  : result DbRecord :=
  match txn_bib !! record_id r with
  | None => Raise AttributeError
  | Some document => Ok document
  end.

(** [records], built by the loop over [results]. *)
Definition fetch_records (txn_bib : gmap (list N) DbRecord) (results : list Hit)
  : result (list DbRecord) :=
  for_each (fun records r => document ← fetch_record txn_bib r;
                             Ok (records ++ [document]))
           [] results.

(** [[match_candidate(ocr, r) for r in records]], with the lines printed on
    the way. *)
Definition verify_all (E : Externals) (ocr : str) (records : list DbRecord)
  : result (list str * list (list Field)) :=
  for_each (fun '(printed, matches) r =>
              '(lines, fields) ← match_candidate E ocr r;
              Ok (printed ++ lines, matches ++ [fields]))
           ([], []) records.

Definition match_scores (matches : list (list Field)) : list Z :=
  (fun m => Z.of_nat (length m)) <$> matches.

(** What is emitted for a card. *)
Record MatchResult : Type := mkMatchResult {
  card : str;
  best_record : str;
  score : Z;
  alignment : list Field }.

(** The Selector, lines 217-227, for a non-empty list of candidates: the
    first candidate with the highest score, unless that score is below the
    threshold. *)
Definition select (min_matched_lines : Z) (file_path : str) (results : list Hit)
    (matches : list (list Field)) : result (option MatchResult) :=
  let scores := match_scores matches in
  if min_matched_lines <=? py_max scores then
    best ← index results (argmax scores);
    fields ← index matches (argmax scores);
    Ok (Some (mkMatchResult file_path (record_id best) (py_max scores) fields))
  else Ok None.

(** The line added to [matching_output]. *)
Definition matching_line (m : MatchResult) : str :=
  card m ++ [TAB] ++ best_record m ++ [TAB] ++ py_str_int (score m) ++ [LF].

(** The line added to [alignment_output]. *)
Definition alignment_line (m : MatchResult) : str :=
  fold_left (fun out f_line =>
               out ++ [TAB] ++ label f_line ++ [SPACE] ++ py_str_int (from f_line)
                   ++ [SPACE] ++ py_str_int (to f_line))
            (alignment m) (card m)
  ++ [LF].

Definition emit (st : Run) (m : MatchResult) : Run :=
  let st := print st (lit "Best match for file " ++ card m ++ lit " is "
                      ++ best_record m ++ lit " with score: "
                      ++ py_str_int (score m)) in
  mkRun (nb_cards_searched st)
        (matching_output st ++ matching_line m)
        (alignment_output st ++ alignment_line m)
        (stdout st) (searches st).

(** [file_path, *alignments = line.split("\t")]. *)
Definition card_path (line : str) : str := hd [] (split_on TAB line).
Definition card_alignments (line : str) : list str := tail (split_on TAB line).

(** One turn of the loop over the input lines.  The only exception caught
    here is the [TimeoutError] of [search_phrase]. *)
Definition process_card (E : Externals) (min_matched_lines : Z)
    (txn_ocr : gmap (list N) str) (txn_bib : gmap (list N) DbRecord)
    (st : Run) (line : str) : result Run :=
  let st := print st [] in
  let file_path := card_path line in
  let alignments := card_alignments line in
  let st := print st (lit "Matching " ++ file_path) in
  ocr ← load_ocr (strip file_path) txn_ocr;
  parsed_alignments ← parse_alignments E alignments ocr;
  let attempt := search_phrase E (searches st) parsed_alignments ocr in
  let st := mkRun (nb_cards_searched st + 1) (matching_output st)
                  (alignment_output st) (stdout st) (S (searches st)) in
  match attempt with
  | Raise TimeoutError =>
      Ok (print st (lit "Timeout reached on file " ++ file_path ++ lit ", skipping"))
  | Raise e => Raise e
  | Ok results =>
      records ← fetch_records txn_bib results;
      '(printed, matches) ← verify_all E ocr records;
      let st := fold_left print printed st in
      let st := print st (lit "Found " ++ py_str_int (Z.of_nat (length matches))
                          ++ lit " candidates with scores:.") in
      match matches with
      | [] => Ok st
      | _ =>
          chosen ← select min_matched_lines file_path results matches;
          match chosen with
          | Some m => Ok (emit st m)
          | None =>
              Ok (print st (lit "Not enough matches found for file " ++ file_path
                            ++ lit " (must be higher than "
                            ++ py_str_int min_matched_lines))
          end
      end
  end.

Definition initial_run : Run := mkRun 0 [] [] [] 0.

(** The bounds of [random.randint(0, 2e6)], both inclusive, on a Python
    whose [randint] takes the float bound [2e6] for the integer 2000000. *)
Definition randint_low : Z := 0.
Definition randint_high : Z := 2000000.

(** [all_lines[idx:idx+10]]. *)
Definition window (all_lines : list str) (idx : Z) : list str :=
  py_slice all_lines idx (idx + 10).

(** The loop of [main] for the start index [idx] drawn by
    [random.randint(0, 2e6)]. *)
Definition run_loop (E : Externals) (min_matched_lines : Z)
    (txn_ocr : gmap (list N) str) (txn_bib : gmap (list N) DbRecord)
    (all_lines : list str) (idx : Z) : result Run :=
  for_each (process_card E min_matched_lines txn_ocr txn_bib) initial_run
           (window all_lines idx).

(** What [save_results] writes: [alignment.txt] and [matching.txt]. *)
Record Saved : Type := mkSaved {
  alignment_txt : str;
  matching_txt : str }.

(** [main()], for the index drawn.  After the loop the average time per card
    is printed, a division by [nb_cards_searched], and only then are the
    results saved. *)
Definition main (E : Externals) (min_matched_lines : Z)
    (txn_ocr : gmap (list N) str) (txn_bib : gmap (list N) DbRecord)
    (all_lines : list str) (idx : Z) : result Saved :=
  st ← run_loop E min_matched_lines txn_ocr txn_bib all_lines idx;
  if nb_cards_searched st =? 0 then Raise ZeroDivisionError
  else Ok (mkSaved (alignment_output st) (matching_output st)).

(** ** Stand-ins for the externals, used in the examples

    The properties below hold for all externals; the examples need some to
    run with. *)

(** [int] on an optional sign and ASCII decimal digits. *)
Fixpoint digits_value (acc : Z) (s : str) : option Z :=
  match s with
  | [] => Some acc
  | c :: s' =>
      if ((48 <=? c) && (c <=? 57))%N
      then digits_value (10 * acc + (Z.of_N c - 48)) s'
      else None
  end.

Definition ascii_int (s : str) : option Z :=
  match s with
  | [] => None
  | 45%N :: (_ :: _) as s' => Z.opp <$> digits_value 0 s'
  | 43%N :: (_ :: _) as s' => digits_value 0 s'
  | 45%N :: [] | 43%N :: [] => None
  | _ => digits_value 0 s
  end.

(** [lower] on ASCII letters. *)
Definition ascii_lower (s : str) : str :=
  (fun c => if ((65 <=? c) && (c <=? 90))%N then (c + 32)%N else c) <$> s.

(** The edit distance (insertions, deletions, substitutions) of two texts,
    row by row: [row_step] fills the row of one more code point [x] of the
    first text from the row above. *)
Fixpoint row_step (x : N) (b : str) (diag : nat) (above : list nat) (left : nat)
  : list nat :=
  match b, above with
  | y :: b', up :: above' =>
      let v := Nat.min (diag + (if N.eqb x y then 0 else 1))
                       (Nat.min (S up) (S left)) in
      v :: row_step x b' up above' v
  | _, _ => []
  end.

Definition next_row (b : str) (row : list nat) (x : N) : list nat :=
  match row with
  | [] => []
  | d0 :: above => S d0 :: row_step x b d0 above (S d0)
  end.

Definition levenshtein (a b : str) : nat :=
  List.last (fold_left (next_row b) a (seq 0 (S (length b)))) 0%nat.

(** An exhaustive search: every window of the haystack within the bound,
    by start and then by end; an empty pattern is a [ValueError]. *)
Definition exhaustive_matches (pattern haystack : str) (d : Z)
  : result (list Match) :=
  match pattern with
  | [] => Raise ValueError
  | _ =>
      let n := length haystack in
      Ok (s ← seq 0 (S n);
          e ← seq s (S n - s);
          let w := take (e - s) (drop s haystack) in
          let k := Z.of_nat (levenshtein pattern w) in
          if k <=? d then [mkMatch (Z.of_nat s) (Z.of_nat e) k w] else [])
  end.

(** A searcher that answers every query with the same hits after the same
    time. *)
Definition fixed_search (ms : Z) (hits : list Hit) : nat -> Query -> Timed (list Hit) :=
  fun _ _ => mkTimed ms hits.

(** Externals whose record generator keeps a field as it is and whose
    resolver keeps every span. *)
Definition plain_externals (search : nat -> Query -> Timed (list Hit)) : Externals :=
  mkExternals ascii_int ascii_lower exhaustive_matches
              (fun raw_label raw_text => [(raw_label, raw_text)])
              (fun fields => Ok fields)
              search.

(** The same with a resolver that always raises. *)
Definition failing_resolver (search : nat -> Query -> Timed (list Hit)) : Externals :=
  mkExternals ascii_int ascii_lower exhaustive_matches
              (fun raw_label raw_text => [(raw_label, raw_text)])
              (fun fields => Raise (OtherError "RecursionError"))
              search.

(** [needle in hay]. *)
Fixpoint contains (hay needle : str) : bool :=
  bool_decide (needle `prefix_of` hay)
  || match hay with
     | [] => false
     | _ :: hay' => contains hay' needle
     end.

(** ** A small corpus for the examples *)

Definition card1_ocr : str := lit "William Shakespeae Hamlet 1603".

Definition ocr_store : gmap (list N) str := {[ lit "card1" := card1_ocr ]}.

Definition rec42 : DbRecord :=
  [(lit "Author", lit "Shakespeare"); (lit "Title", lit "Hamlet")].

(** A record none of whose fields is anywhere near the text of the card. *)
Definition rec7 : DbRecord :=
  [(lit "Author", lit "Zzzzzzzzzzz"); (lit "Title", lit "Qqqqqq")].

Definition bib_store : gmap (list N) DbRecord :=
  {[ lit "rec42" := rec42; lit "rec7" := rec7 ]}.

(** An input line for [card1], one that names a card without OCR text, and
    two malformed ones: a field with two tokens, and a bound that is not a
    number. *)
Definition card1_line : str :=
  lit "card1" ++ [TAB] ++ lit "Author 0 18" ++ [TAB] ++ lit "Title 19 25" ++ [LF].

Definition card9_line : str :=
  lit "card9" ++ [TAB] ++ lit "Author 0 18" ++ [LF].

Definition short_line : str :=
  lit "card1" ++ [TAB] ++ lit "Author 0" ++ [LF].

Definition letters_line : str :=
  lit "card1" ++ [TAB] ++ lit "Author zero ten" ++ [LF].

(** The fields of [rec42] as found in the text of [card1], and what the
    exhaustive search reports for its author. *)
Definition card1_fields : list Field :=
  [mkField (lit "Author") (lit "Shakespeae") 8 18;
   mkField (lit "Title") (lit "Hamlet") 19 25].


(** The alignments parsed from [card1_line]. *)
Definition card1_alignments : Alignments :=
  [(lit "Author", [lit "William Shakespeae"]); (lit "Title", [lit "Hamlet"])].

(** A search that finds [rec42] in ten milliseconds, one that finds the
    record without any field of the card, and one that runs for a minute. *)
Definition quick : Externals := plain_externals (fixed_search 10 [mkHit (lit "rec42")]).
Definition quick_rec7 : Externals := plain_externals (fixed_search 10 [mkHit (lit "rec7")]).
Definition slow : Externals := plain_externals (fixed_search 60000 [mkHit (lit "rec42")]).
Definition quick_failing : Externals :=
  failing_resolver (fixed_search 10 [mkHit (lit "rec42")]).

(** ** The rest of the driver *)

(** [ocr_line_acceptable(line)]: no replacement character, and between 3 and
    20 code points. *)
Definition ocr_line_acceptable (line : str) : bool :=
  if bool_decide (JOKER ∈ line) then false
  else if (length line <? 3)%nat then false
  else if (20 <? length line)%nat then false
  else true.

(** ** The rest of [src/NER/helper.py] and [src/NER/tester.py] *)

Module NER.

Definition LINE_SEPARATOR : str := lit "[LF]".

(** [text.replace(a, b)] for a one-code-point [a] and any text [b]. *)
Definition replace_with (a : N) (b : str) (text : str) : str :=
  c ← text; if N.eqb c a then b else [c].

(** [add_line_separator_token(text)]. *)
Definition add_line_separator_token (text : str) : str :=
  replace_with LF ([SPACE] ++ LINE_SEPARATOR ++ [SPACE]) text.

(** *** [ModelConfig] *)

(** A Python dict as the list of its items in insertion order: setting a key
    that is present replaces its value in place, a new key goes to the
    end. *)
Fixpoint dict_set {K V : Type} `{EqDecision K} (d : list (K * V)) (k : K) (v : V)
  : list (K * V) :=
  match d with
  | [] => [(k, v)]
  | (k', v') :: d' =>
      if decide (k' = k) then (k', v) :: d' else (k', v') :: dict_set d' k v
  end.

Fixpoint dict_get {K V : Type} `{EqDecision K} (d : list (K * V)) (k : K)
  : option V :=
  match d with
  | [] => None
  | (k', v') :: d' => if decide (k' = k) then Some v' else dict_get d' k
  end.

(** A dict comprehension [{k: v for ...}] over the pairs it produces. *)
Definition dict_of {K V : Type} `{EqDecision K} (items : list (K * V))
  : list (K * V) :=
  fold_left (fun d '(k, v) => dict_set d k v) items [].

(** [enumerate(xs)]. *)
Definition enumerate {A : Type} (xs : list A) : list (Z * A) :=
  imap (fun i x => (Z.of_nat i, x)) xs.

Definition ALL_LABELS : list str :=
  lit <$> ["Author"; "Title"; "Original_title"; "Publisher"; "Pages"; "Series";
           "Edition"; "References"; "ID"; "ISBN"; "ISSN"; "Topic"; "Subtitle";
           "Date"; "Institute"; "Volume"]%string.

Definition SUBSET_LABELS : list str :=
  lit <$> ["Author"; "Title"; "ID"; "Pages"; "Volume"; "Publisher"; "Edition";
           "Date"]%string.

(** [get_labels(label_str)]; [None] is the [None] that the method returns
    when it falls off its end. *)
Definition get_labels (label_str : str) : option (list str) :=
  if decide (label_str = lit "all") then Some ALL_LABELS
  else if decide (label_str = lit "subset") then Some SUBSET_LABELS
  else None.

(** [get_format(format)], which is [list(format.upper())]: the one-code-point
    texts of the upper-cased format.  [upper] is [str.upper]. *)
Definition get_format (upper : str -> str) (format : str) : list str :=
  (fun c => [c]) <$> upper format.

(** [get_labels2ids(format_str)] for the labels of the object. *)
Definition get_labels2ids (labels : list str) (format_str : str)
  : option (list (str * Z)) :=
  if decide (format_str = lit "iob") then
    let no_o := [lit "B"; lit "I"] in
    Some (dict_of ('(i, label) ← enumerate labels;
                   '(j, c) ← enumerate no_o;
                   [(c ++ lit "-" ++ label, i * Z.of_nat (length no_o) + j + 1)]))
  else if decide (format_str = lit "io") then
    Some (dict_of ('(i, label) ← enumerate labels; [(label, i + 1)]))
  else None.

Record ModelConfig : Type := mkModelConfig {
  labels : list str;
  format : list str;
  num_labels : Z;
  labels2ids : list (str * Z);
  ids2labels : list (Z * str);
  max_sequence_len : Z;
  sep : bool;
  sep_loss : bool;
  must_align : list str;
  min_aligned : Z }.

Definition TypeError : exn := OtherError "TypeError".

(** [ModelConfig.__init__].  [len(None)] and [None["O"] = 0] raise
    [TypeError]; the three checks at the end raise [ValueError]. *)
Definition init (upper : str -> str) (labels format : str) (max_len : Z)
    (sep sep_loss : bool) (must_align : list str) (min_aligned : Z)
  : result ModelConfig :=
  let self_labels := get_labels labels in
  let self_format := get_format upper format in
  match self_labels with
  | None => Raise TypeError
  | Some self_labels =>
      let num_labels :=
        Z.of_nat (length self_labels)
        * Z.of_nat (length (filter (fun tag => tag ≠ lit "O") self_format)) + 1 in
      match get_labels2ids self_labels format with
      | None => Raise TypeError
      | Some labels2ids =>
          let labels2ids := dict_set labels2ids (lit "O") 0 in
          let ids2labels := dict_of ((fun '(k, v) => (v, k)) <$> labels2ids) in
          if Z.of_nat (length self_labels) <? min_aligned then Raise ValueError
          else if min_aligned <? 1 then Raise ValueError
          else if bool_decide (must_align ⊆ self_labels)
          then Ok (mkModelConfig self_labels self_format num_labels labels2ids
                                 ids2labels max_len sep sep_loss must_align
                                 min_aligned)
          else Raise ValueError
  end
  end.

(** *** Token labels from character offsets *)

(** An alignment as [offsets_to_io] reads it: [.label], [.start], [.end]. *)
Record Alignment : Type := mkAlignment {
  label : str;
  start : Z;
  end_ : Z }.

Definition O : str := lit "O".

(** [TRUNCATED_CHARS[0]]. *)
Definition newline_joker : N := 868%N.

(** [s[a:]]. *)
Definition slice_from (s : str) (a : Z) : str :=
  py_slice s a (Z.of_nat (length s)).

(** [labels += [x] * (len(tokens) - len(labels))]. *)
Definition pad_labels (tokens labels : list str) (x : str) : list str :=
  labels ++ replicate (length tokens - length labels) x.

(** The loop over [enumerate(alignments)]; [alignments[i + 1]] is the head
    of the rest, and [IndexError] is caught when there is none. *)
Fixpoint io_loop (text_c : str) (alignments : list Alignment)
    (tokens labels : list str) : list str * list str :=
  match alignments with
  | [] => (tokens, labels)
  | alignment :: rest =>
      let tokens := tokens ++ split (py_slice text_c (start alignment) (end_ alignment)) in
      let labels := pad_labels tokens labels (label alignment) in
      let tokens :=
        tokens ++ split (match rest with
                         | next_alignment :: _ =>
                             py_slice text_c (end_ alignment) (start next_alignment)
                         | [] => slice_from text_c (end_ alignment)
                         end) in
      let labels := pad_labels tokens labels O in
      io_loop text_c rest tokens labels
  end.

(** The backward correction of the [sep] case, over [zip(tokens, labels)]. *)
Definition resplit (out : list str * list str) (pair : str * str)
  : list str * list str :=
  let '(out_tokens, out_labels) := out in
  let '(token, label) := pair in
  if bool_decide (newline_joker ∈ token) then
    let split_token :=
      split (replace_with newline_joker ([SPACE] ++ LINE_SEPARATOR ++ [SPACE]) token) in
    (out_tokens ++ split_token, out_labels ++ replicate (length split_token) label)
  else (out_tokens ++ [token], out_labels ++ [label]).

(** [offsets_to_io(text, alignments, sep)]; [alignments[0]] raises
    [IndexError] on an empty list. *)
Definition offsets_to_io (text : str) (alignments : list Alignment) (sep : bool)
  : result (list str * list str) :=
  let text_c := if sep then replace_char LF newline_joker text else text in
  match alignments with
  | [] => Raise IndexError
  | first :: _ =>
      let tokens := split (py_slice text_c 0 (start first)) in
      let labels := replicate (length tokens) O in
      let '(tokens, labels) := io_loop text_c alignments tokens labels in
      if sep then Ok (fold_left resplit (zip tokens labels) ([], []))
      else Ok (tokens, labels)
  end.

(** The loop of [offsets_to_iob] over the labels that [zip] pairs with a
    token; [current] is the label before, as it was. *)
Fixpoint iob_loop (current : str) (labels : list str) : list str :=
  match labels with
  | [] => []
  | label :: labels' =>
      if decide (label = O) then label :: iob_loop O labels'
      else (if decide (label = current) then lit "I-" ++ label
            else lit "B-" ++ label) :: iob_loop label labels'
  end.

(** [offsets_to_iob(text, alignments, sep)]: the labels beyond the last
    token, if any, are left as they are. *)
Definition offsets_to_iob (text : str) (alignments : list Alignment) (sep : bool)
  : result (list str * list str) :=
  '(tokens, labels) ← offsets_to_io text alignments sep;
  Ok (tokens, iob_loop [] (take (length tokens) labels)
              ++ drop (length tokens) labels).

(** [Tester.remove_format(labels)] for the format of the model's
    configuration; [None] when the format is neither of the two. *)
Definition remove_format (format : list str) (labels : list str)
  : option (list str) :=
  if decide (format = [lit "I"; lit "O"; lit "B"]) then
    Some ((fun label => if decide (label = O) then label
                        else py_slice label 2 (Z.of_nat (length label)))
          <$> labels)
  else if decide (format = [lit "I"; lit "O"]) then Some labels
  else None.

End NER.

(** ** Reading of [parse_alignments] as a comprehension

    [[ocr[int(start):int(end)] for (l, start, end) in fields if l == label]]
    over the fields that split into a label and two integers. *)
Definition slices_of_label (E : Externals) (ocr : str) (alignments : list str)
    (wanted : str) : list str :=
  alignment ← alignments;
  match split alignment with
  | [label; start; end_] =>
      match py_int E start, py_int E end_ with
      | Some a, Some b => if decide (label = wanted) then [py_slice ocr a b] else []
      | _, _ => []
      end
  | _ => []
  end.

(** A field of an input line that does not split into a label and two
    integers. *)
Definition malformed (E : Externals) (alignment : str) : Prop :=
  length (split alignment) ≠ 3%nat
  \/ exists token, token ∈ tail (split alignment) /\ py_int E token = None.

(** The span that one atomic field of a record gives when the matcher
    returns an occurrence for it. *)
Definition span_of_field (E : Externals) (ocr : str) (item : str * str)
    (span : Field) : Prop :=
  exists matches lowest,
    find_near_matches E item.2 ocr (get_max_dist item.2) = Ok matches
    /\ lowest_match matches = Some lowest
    /\ span = mkField item.1 (matched lowest) (start lowest) (end_ lowest).

(** The atomic fields of a record, in the order the verifier visits them. *)
Definition atomic_fields (E : Externals) (db_entries : DbRecord) : list (str * str) :=
  '(raw_label, raw_text) ← db_entries; generate_db_records E raw_label raw_text.

(** The code point that stands for [c] after the replacements of a table,
    applied in the order of the table. *)
Definition replaced (table : list (N * N)) (c : N) : N :=
  fold_left (fun c '(to_replace, replace_with) =>
               if N.eqb c to_replace then replace_with else c)
            table c.

(** [upper] on ASCII letters, for the examples. *)
Definition ascii_upper (s : str) : str :=
  (fun c => if ((97 <=? c) && (c <=? 122))%N then (c - 32)%N else c) <$> s.

(** Alignments in the order of the text, one after the other: each starts at
    or after [pos] and ends at or after its start, and the next starts at or
    after its end. *)
Fixpoint ordered_from (pos : Z) (alignments : list NER.Alignment) : Prop :=
  match alignments with
  | [] => True
  | alignment :: rest =>
      pos <= NER.start alignment
      /\ NER.start alignment <= NER.end_ alignment
      /\ ordered_from (NER.end_ alignment) rest
  end.

(** The alignments of [card1], and its text on two lines. *)
Definition card1_spans : list NER.Alignment :=
  [NER.mkAlignment (lit "Author") 8 18; NER.mkAlignment (lit "Title") 19 25].

Definition card1_two_lines : str :=
  lit "William Shakespeae" ++ [LF] ++ lit "Hamlet 1603".

(** The slices that the spans of a match cut from the OCR text under one
    label, in the order of the spans. *)
Definition slices_of_spans (ocr : str) (spans : list Field) (wanted : str)
  : list str :=
  f_line ← spans;
  if decide (label f_line = wanted) then [py_slice ocr (from f_line) (to f_line)]
  else [].

(** The decimal digits and the minus sign. *)
Definition numeric (c : N) : Prop := (48 <= c <= 57)%N \/ c = 45%N.

(** What the loop of [main] writes for one span, after the tab. *)
Definition field_text (f_line : Field) : str :=
  label f_line ++ [SPACE] ++ py_str_int (from f_line)
  ++ [SPACE] ++ py_str_int (to f_line).

(** A span that [parse_alignments] can read back: its label is one token and
    [int] reads the two offsets as [str] wrote them. *)
Definition readable (E : Externals) (f_line : Field) : Prop :=
  label f_line ≠ []
  /\ Forall (fun c => isspace c = false) (label f_line)
  /\ py_int E (py_str_int (from f_line)) = Some (from f_line)
  /\ py_int E (py_str_int (to f_line)) = Some (to f_line).

(** The result of the Selector for [card1]. *)
Definition card1_result : MatchResult :=
  mkMatchResult (lit "card1") (lit "rec42") 2 card1_fields.

(** ** Occurrences of a pattern in a text *)




(** A searcher that retrieves [rec7] before [rec42]. *)
Definition two_hits : Externals :=
  plain_externals (fixed_search 10 [mkHit (lit "rec7"); mkHit (lit "rec42")]).

(** * Properties *)

(** ** Slices *)

Lemma adjust_index_range (n i : Z) : 0 <= n -> 0 <= adjust_index n i <= n.
Proof. unfold adjust_index. destruct (Z.ltb_spec i 0); lia. Qed.

Lemma adjust_index_id (n i : Z) : 0 <= i <= n -> adjust_index n i = i.
Proof. unfold adjust_index. destruct (Z.ltb_spec i 0); lia. Qed.

(** A slice is always a contiguous part of the sequence. *)
Lemma py_slice_infix {A : Type} (s : list A) (a b : Z) :
  exists pre post, s = pre ++ py_slice s a b ++ post.
Proof.
  unfold py_slice.
  set (n := Z.of_nat (length s)).
  set (lo := Z.to_nat (adjust_index n a)).
  set (k := Z.to_nat (adjust_index n b - adjust_index n a)).
  exists (take lo s), (drop k (drop lo s)).
  by rewrite !take_drop.
Qed.

(** Within the bounds of the sequence the slice has [b - a] elements. *)
Lemma py_slice_length {A : Type} (s : list A) (a b : Z) :
  0 <= a <= b -> b <= Z.of_nat (length s) ->
  Z.of_nat (length (py_slice s a b)) = b - a.
Proof.
  intros Hab Hb. unfold py_slice.
  rewrite !adjust_index_id by lia.
  rewrite length_take, length_drop. lia.
Qed.

Lemma py_slice_take_drop {A : Type} (s : list A) (a b : Z) :
  0 <= a -> a <= b ->
  py_slice s a b = take (Z.to_nat (b - a)) (drop (Z.to_nat a) s).
Proof.
  intros Ha Hab. unfold py_slice, adjust_index.
  set (n := Z.of_nat (length s)).
  assert (0 <= n) by (unfold n; lia).
  destruct (Z.ltb_spec a 0), (Z.ltb_spec b 0); try lia.
  destruct (Z.le_gt_cases a n).
  - rewrite (Z.min_l a n) by lia.
    destruct (Z.le_gt_cases b n).
    + by rewrite Z.min_l by lia.
    + rewrite Z.min_r by lia.
      rewrite !take_ge; [done | |]; rewrite length_drop; lia.
  - rewrite !(drop_ge s) by lia. by rewrite !take_nil.
Qed.

(** ** The distance budget *)

(** C2: the budget [get_max_dist] does not decrease when the text gets
    longer, never exceeds 6, and is 1 below six code points, 2 below eleven,
    and the smaller of [floor(length * 0.25)] and 6 from eleven on. *)
Theorem get_max_dist_schedule (text longer : str) :
  ((length text <= length longer)%nat -> get_max_dist text <= get_max_dist longer)
  /\ get_max_dist text <= 6
  /\ ((length text < 6)%nat -> get_max_dist text = 1)
  /\ ((6 <= length text < 11)%nat -> get_max_dist text = 2)
  /\ ((11 <= length text)%nat ->
      get_max_dist text
      = Z.min (Qfloor (inject_Z (Z.of_nat (length text)) * (25 # 100))) 6).
Proof.
  unfold get_max_dist, get_max_dist_limit, int_times_threshold.
  set (n := Z.of_nat (length text)). set (m := Z.of_nat (length longer)).
  assert (Hfloor : Qfloor (inject_Z n * (25 # 100)) = n / 4).
  { unfold Qfloor, Qmult, inject_Z; simpl.
    change (Z.pos (1 * 100)) with (4 * 25).
    rewrite Z.div_mul_cancel_r; lia. }
  repeat split.
  - intros Hle. assert (n <= m) by (unfold n, m; lia).
    destruct (Z.ltb_spec n 6), (Z.ltb_spec m 6), (Z.ltb_spec n 11), (Z.ltb_spec m 11);
      try lia.
    + assert (2 <= m / 4) by (apply Z.div_le_lower_bound; lia). lia.
    + assert (2 <= m / 4) by (apply Z.div_le_lower_bound; lia). lia.
    + assert (n / 4 <= m / 4) by (apply Z.div_le_mono; lia). lia.
  - destruct (Z.ltb_spec n 6), (Z.ltb_spec n 11); lia.
  - intros Hn. destruct (Z.ltb_spec n 6); [done | unfold n in *; lia].
  - intros Hn. destruct (Z.ltb_spec n 6), (Z.ltb_spec n 11); unfold n in *; lia.
  - intros Hn. rewrite Hfloor.
    destruct (Z.ltb_spec n 6), (Z.ltb_spec n 11); unfold n in *; lia.
Qed.

(** ** The distance-bounded matcher *)

(** [min] keeps the first of the elements with the lowest key: [i] is the
    position of the result in [best :: matches]. *)
Lemma min_dist_from_first (best : Match) (matches : list Match) :
  exists i : nat,
    (best :: matches) !! i = Some (min_dist_from best matches)
    /\ forall (j : nat) (m : Match), (best :: matches) !! j = Some m ->
         dist (min_dist_from best matches) <= dist m
         /\ (dist m = dist (min_dist_from best matches) -> (i <= j)%nat).
Proof.
  revert best. induction matches as [|m ms IH]; intros best; simpl.
  - exists 0%nat. split; [done|]. intros [|j] x Hx; simplify_eq/=; lia.
  - destruct (Z.ltb_spec (dist m) (dist best)) as [Hlt|Hge].
    + destruct (IH m) as (i & Hi & Hmin). exists (S i). split; [done|].
      intros [|j] x Hx; simplify_eq/=.
      * destruct (Hmin 0%nat m eq_refl). lia.
      * destruct (Hmin j x Hx). split; [done | lia].
    + destruct (IH best) as (i & Hi & Hmin).
      destruct (Hmin 0%nat best eq_refl) as [Hb0 Hb1].
      exists (match i with O => O | S k => S (S k) end). split.
      { by destruct i. }
      intros [|[|j]] x Hx; simplify_eq/=.
      * split; [done|]. intros Heq. specialize (Hb1 Heq). by destruct i; lia.
      * split; [lia|]. intros Heq.
        assert (i = 0)%nat as -> by (apply Nat.le_0_r, Hb1; lia). lia.
      * destruct (Hmin (S j) x Hx) as [? Hj]. split; [done|].
        intros Heq. specialize (Hj Heq). destruct i; lia.
Qed.

Lemma lowest_match_first (matches : list Match) (best : Match) :
  lowest_match matches = Some best ->
  exists i : nat,
    matches !! i = Some best
    /\ forall (j : nat) (m : Match), matches !! j = Some m ->
         dist best <= dist m /\ (dist m = dist best -> (i <= j)%nat).
Proof.
  destruct matches as [|m ms]; [done|]. intros [= <-].
  apply min_dist_from_first.
Qed.

Lemma lowest_match_None (matches : list Match) :
  lowest_match matches = None <-> matches = [].
Proof. by destruct matches. Qed.

(** In a list sorted by a relation, an earlier element is related to a later
    one. *)
Lemma StronglySorted_lookup_le {A : Type} (R : A -> A -> Prop) `{!Reflexive R}
    (l : list A) (i j : nat) (x y : A) :
  StronglySorted R l -> l !! i = Some x -> l !! j = Some y -> (i <= j)%nat ->
  R x y.
Proof.
  intros Hs. revert i j. induction Hs as [|a l Hs IH Ha]; intros i j Hi Hj Hij.
  - done.
  - destruct i as [|i], j as [|j]; simplify_eq/=; [done | | lia | ].
    + eapply Forall_lookup_1; eauto.
    + eapply IH; eauto. lia.
Qed.

(** A degenerate pattern, on which the search raises [ValueError], gives no
    match and no field. *)
Lemma find_best_ValueError (E : Externals) (pattern haystack : str) (d : Z) :
  find_near_matches E pattern haystack d = Raise ValueError ->
  find_best E pattern haystack d = Ok None.
Proof. unfold find_best. by intros ->. Qed.

Lemma match_field_skips (E : Externals) (ocr : str) (fields : list Field)
    (label text : str) :
  find_best E text ocr (get_max_dist text) = Ok None ->
  match_field E ocr fields (label, text) = Ok fields.
Proof. unfold match_field. by intros ->. Qed.


(** ** The query builder *)

(** Appending in a loop is the concatenation of what each turn appends. *)
Lemma fold_left_append {A B : Type} (f : A -> list B) (xs : list A) (acc : list B) :
  fold_left (fun acc x => acc ++ f x) xs acc = acc ++ (xs ≫= f).
Proof.
  revert acc. induction xs as [|x xs IH]; intros acc; simpl.
  - by rewrite app_nil_r.
  - by rewrite IH, app_assoc.
Qed.

Lemma fold_left_ext {A B : Type} (f g : A -> B -> A) (xs : list B) (a : A) :
  (forall a x, f a x = g a x) -> fold_left f xs a = fold_left g xs a.
Proof.
  intros Hfg. revert a. induction xs as [|x xs IH]; intros a; simpl; [done|].
  by rewrite Hfg, IH.
Qed.

Lemma word_terms_fields (E : Externals) (label word : str) :
  word_terms E label word
  = spec_fields E label ≫= (fun field => [mkFuzzyTerm field word 2 0]).
Proof. unfold word_terms, spec_fields. by destruct (decide (label = Author)). Qed.

Lemma long_words_filter (text : str) :
  long_words text = filter (fun token => ¬ (length token <= 3)%nat) (split text).
Proof. unfold long_words. apply list_filter_iff. intros w. lia. Qed.

(** The loops of [search_phrase] build the terms of the specification. *)
Lemma fuzzy_terms_of_spec (E : Externals) (alignments : Alignments) :
  fuzzy_terms_of E alignments = spec_terms E alignments.
Proof.
  unfold fuzzy_terms_of, spec_terms.
  rewrite (fold_left_ext _
    (fun acc item => acc ++
       (fun '(label, texts) =>
          texts ≫= (fun text => long_words text ≫= word_terms E label)) item)).
  - rewrite fold_left_append. simpl.
    apply list_bind_ext; [|done]. intros [label texts].
    apply list_bind_ext; [|done]. intros text.
    rewrite long_words_filter.
    apply list_bind_ext; [|done]. intros word.
    apply word_terms_fields.
  - intros acc [label texts].
    rewrite (fold_left_ext _
      (fun acc text => acc ++ (long_words text ≫= word_terms E label))).
    + apply fold_left_append.
    + intros acc' text. apply fold_left_append.
Qed.

(** A whitespace code point in front of a text does not change its tokens. *)
Lemma tokens_cons_space (c : N) (s : str) (ts : list str) :
  isspace c = true -> tokens s ts -> tokens (c :: s) ts.
Proof.
  intros Hc Hs. destruct Hs as [blank Hb | blank word rest ts Hb Hw Hns Hrest Hts].
  - apply tokens_blank. by constructor.
  - change (c :: blank ++ word ++ rest) with ((c :: blank) ++ word ++ rest).
    apply tokens_word; [by constructor | done..].
Qed.

(** What [split_go] returns: the tokens of [s] when no run is being read,
    and otherwise the run [cur] extended to the next whitespace, followed by
    the tokens of the rest. *)
Lemma split_go_tokens (s : str) :
  tokens s (split_go [] s)
  /\ forall cur : str, cur ≠ [] ->
       exists word rest ts,
         s = word ++ rest
         /\ Forall (fun c => isspace c = false) word
         /\ (rest = [] \/ exists c rest', rest = c :: rest' /\ isspace c = true)
         /\ tokens rest ts
         /\ split_go cur s = (cur ++ word) :: ts.
Proof.
  induction s as [|c s [IHtok IHrun]].
  - split; [by apply tokens_blank|]. intros cur Hcur.
    exists [], [], [].
    split_and!; try done; [by left | by apply tokens_blank |].
    rewrite app_nil_r. by destruct cur.
  - simpl. destruct (isspace c) eqn:Hc.
    + split; [by apply tokens_cons_space|]. intros cur Hcur.
      exists [], (c :: s), (split_go [] s).
      split_and!; try done; [right; eauto | by apply tokens_cons_space |].
      rewrite app_nil_r. by destruct cur.
    + split.
      * destruct (IHrun [c]) as (word & rest & ts & -> & Hw & Hrest & Hts & Hgo);
          [done|].
        simpl. rewrite Hgo.
        apply (tokens_word [] (c :: word) rest ts); try done.
        by constructor.
      * intros cur Hcur.
        destruct (IHrun (cur ++ [c])) as (word & rest & ts & -> & Hw & Hrest & Hts & Hgo).
        { by destruct cur. }
        exists (c :: word), rest, ts.
        split_and!; try done; [by constructor|].
        by rewrite Hgo, <- app_assoc.
Qed.

(** [split] returns the maximal runs of non-whitespace code points. *)
Lemma split_tokens (s : str) : tokens s (split s).
Proof. apply split_go_tokens. Qed.

(** C5: the query is one [Or] over the terms of the specification: one term
    of tolerance 2 and prefix length 0 per whitespace-separated token longer
    than 3, against [author1] and against [author2] under the label
    [Author], against the lowercase label otherwise. *)
Theorem build_query_terms (E : Externals) (alignments : Alignments) :
  build_query E alignments = Or (spec_terms E alignments)
  /\ (forall t : FuzzyTerm,
        t ∈ spec_terms E alignments <->
        exists label texts text,
          (label, texts) ∈ alignments /\ text ∈ texts
          /\ tokens text (split text)
          /\ term_text t ∈ split text /\ (3 < length (term_text t))%nat
          /\ maxdist t = 2 /\ prefixlength t = 0
          /\ if decide (label = Author)
             then fieldname t = lit "author1" \/ fieldname t = lit "author2"
             else fieldname t = lower E label).
Proof.
  split.
  { unfold build_query. by rewrite fuzzy_terms_of_spec. }
  intros t. unfold spec_terms. rewrite list_elem_of_bind. split.
  - intros ([label texts] & Ht & Hin).
    apply list_elem_of_bind in Ht as (text & Ht & Htext).
    apply list_elem_of_bind in Ht as (token & Ht & Htoken).
    apply list_elem_of_filter in Htoken as [Hlen Htoken].
    apply list_elem_of_bind in Ht as (field & Ht & Hfield).
    apply list_elem_of_singleton in Ht as ->. simpl.
    exists label, texts, text.
    split_and!; try done; [apply split_tokens | lia |].
    unfold spec_fields in Hfield. destruct (decide (label = Author)).
    + apply elem_of_cons in Hfield as [-> | Hfield]; [by left | right].
      by apply list_elem_of_singleton in Hfield.
    + by apply list_elem_of_singleton in Hfield.
  - intros (label & texts & text & Hin & Htext & _ & Htoken & Hlen & Hd & Hp & Hf).
    exists (label, texts). split; [|done].
    apply list_elem_of_bind. exists text. split; [|done].
    apply list_elem_of_bind. exists (term_text t). split.
    2: { apply list_elem_of_filter. split; [lia | done]. }
    apply list_elem_of_bind. exists (fieldname t). split.
    + destruct t; simpl in *; subst. by apply list_elem_of_singleton.
    + unfold spec_fields. destruct (decide (label = Author)).
      * destruct Hf as [-> | ->]; [by left | right; by left].
      * rewrite Hf. by left.
Qed.

(** ** The reverse verifier *)

Lemma match_candidate_resolved (E : Externals) (ocr : str) (db_entries : DbRecord)
    (raw resolved : list Field) :
  collect_fields E ocr db_entries = Ok raw ->
  correct_overlaps E raw = Ok resolved ->
  match_candidate E ocr db_entries = Ok ([], reslice ocr <$> resolved).
Proof. unfold match_candidate. intros -> . simpl. by intros ->. Qed.

Lemma match_candidate_failed (E : Externals) (ocr : str) (db_entries : DbRecord)
    (raw : list Field) (e : exn) :
  collect_fields E ocr db_entries = Ok raw ->
  correct_overlaps E raw = Raise e ->
  match_candidate E ocr db_entries = Ok ([overlaps_error], []).
Proof. unfold match_candidate. intros -> . simpl. by intros ->. Qed.

(** C6: every span that the resolver returns comes back with its label and
    range and with the text cut from the OCR text at that range, whatever
    text it carried; the text is a part of the OCR text, of length
    [to - from] for a span that is a range of the card text. *)
Theorem match_candidate_reslices (E : Externals) (ocr : str) (db_entries : DbRecord)
    (raw resolved : list Field) :
  collect_fields E ocr db_entries = Ok raw ->
  correct_overlaps E raw = Ok resolved ->
  exists fields,
    match_candidate E ocr db_entries = Ok ([], fields)
    /\ length fields = length resolved
    /\ forall (i : nat) (span : Field), resolved !! i = Some span ->
         exists line,
           fields !! i = Some line
           /\ label line = label span
           /\ from line = from span /\ to line = to span
           /\ text line = py_slice ocr (from line) (to line)
           /\ (exists pre post, ocr = pre ++ text line ++ post)
           /\ (in_text ocr span ->
               Z.of_nat (length (text line)) = to line - from line).
Proof.
  intros Hraw Hres. exists (reslice ocr <$> resolved).
  split; [by eapply match_candidate_resolved|].
  split; [by rewrite length_fmap|].
  intros i span Hi. exists (reslice ocr span).
  split; [by rewrite list_lookup_fmap, Hi|].
  simpl. split_and!; try done.
  - apply py_slice_infix.
  - intros [[? ?] ?]. by apply py_slice_length.
Qed.

(** ** The selector *)

(** [argmax_from] and the running maximum: either nothing in [xs] exceeds
    [best], or the result is the first position of the maximum in [xs]. *)
Lemma argmax_from_spec (xs : list Z) (best_i : nat) (best : Z) (i : nat) :
  let k := argmax_from best_i best i xs in
  let M := fold_left Z.max xs best in
  best <= M
  /\ (forall (j : nat) (s : Z), xs !! j = Some s -> s <= M)
  /\ ((k = best_i /\ M = best)
      \/ (exists j : nat,
            k = (i + j)%nat /\ xs !! j = Some M /\ best < M
            /\ forall (j' : nat) (s : Z), (j' < j)%nat -> xs !! j' = Some s -> s < M)).
Proof.
  revert best_i best i. induction xs as [|x xs IH]; intros best_i best i; simpl.
  - split; [lia|]. split; [done|]. by left.
  - destruct (Z.ltb_spec best x) as [Hlt|Hge].
    + rewrite Z.max_r by lia.
      destruct (IH i x (S i)) as (Hx & Hall & Hk). split; [lia|]. split.
      { intros [|j] s Hs; simplify_eq/=; [done | by eapply Hall]. }
      right. destruct Hk as [[Hk HM] | (j & Hk & Hj & HxM & Hbefore)].
      * exists 0%nat. rewrite Hk, HM. split_and!; [lia | done | done |].
        intros j' s Hj'. lia.
      * exists (S j). rewrite Hk. split_and!; [lia | done | lia |].
        intros [|j'] s Hj' Hs; simplify_eq/=; [done|].
        eapply Hbefore; [|done]. lia.
    + rewrite Z.max_l by lia.
      destruct (IH best_i best (S i)) as (Hb & Hall & Hk). split; [done|]. split.
      { intros [|j] s Hs; simplify_eq/=; [lia | by eapply Hall]. }
      destruct Hk as [[Hk HM] | (j & Hk & Hj & HbM & Hbefore)]; [by left|].
      right. exists (S j). rewrite Hk. split_and!; [lia | done | done |].
      intros [|j'] s Hj' Hs; simplify_eq/=; [lia|].
      eapply Hbefore; [|done]. lia.
Qed.

(** [np.argmax] on a non-empty list is the first position of [max]. *)
Lemma argmax_first_max (xs : list Z) :
  xs ≠ [] ->
  xs !! argmax xs = Some (py_max xs)
  /\ forall (j : nat) (s : Z), xs !! j = Some s ->
       s <= py_max xs /\ (s = py_max xs -> (argmax xs <= j)%nat).
Proof.
  destruct xs as [|x xs]; [done|]. intros _. simpl.
  destruct (argmax_from_spec xs 0 x 1) as (Hx & Hall & Hk).
  destruct Hk as [[Hk HM] | (j & Hk & Hj & HxM & Hbefore)].
  - rewrite Hk, HM. split; [done|].
    intros [|j] s Hs; simplify_eq/=; [lia|]. split; [|lia].
    rewrite <- HM. by eapply Hall.
  - rewrite Hk. split; [done|].
    intros [|j'] s Hs; simplify_eq/=; [lia|]. split; [by eapply Hall|].
    intros ->. destruct (decide (j' < j)%nat) as [Hlt|]; [|lia].
    specialize (Hbefore j' _ Hlt Hs). lia.
Qed.

(** The list comprehension over [records] calls [match_candidate] on each
    record in turn: [outs] are the results of the calls. *)
Lemma verify_all_from (E : Externals) (ocr : str) (records : list DbRecord)
    (printed0 : list str) (matches0 : list (list Field))
    (printed : list str) (matches : list (list Field)) :
  for_each (fun '(printed, matches) r =>
              '(lines, fields) ← match_candidate E ocr r;
              Ok (printed ++ lines, matches ++ [fields]))
           (printed0, matches0) records = Ok (printed, matches)
  <-> exists outs : list (list str * list Field),
        Forall2 (fun r out => match_candidate E ocr r = Ok out) records outs
        /\ printed = printed0 ++ concat (fst <$> outs)
        /\ matches = matches0 ++ (snd <$> outs).
Proof.
  revert printed0 matches0. induction records as [|r records IH];
    intros printed0 matches0; simpl.
  - split.
    + intros [= <- <-]. exists []. by rewrite !app_nil_r.
    + intros (outs & Houts & -> & ->). apply Forall2_nil_inv_l in Houts as ->.
      simpl. by rewrite !app_nil_r.
  - destruct (match_candidate E ocr r) as [[lines fields]|e] eqn:Hr; simpl.
    + rewrite IH. split.
      * intros (outs & Houts & -> & ->). exists ((lines, fields) :: outs).
        split; [by constructor|]. simpl. by rewrite <- !app_assoc.
      * intros (outs & Houts & -> & ->).
        apply Forall2_cons_inv_l in Houts as (out & outs' & Hout & Houts & ->).
        rewrite Hr in Hout. injection Hout as <-.
        exists outs'. split; [done|]. simpl. by rewrite <- !app_assoc.
    + split; [done|]. intros (outs & Houts & _).
      apply Forall2_cons_inv_l in Houts as (out & outs' & Hout & _).
      by rewrite Hr in Hout.
Qed.

Lemma verify_all_outs (E : Externals) (ocr : str) (records : list DbRecord)
    (printed : list str) (matches : list (list Field)) :
  verify_all E ocr records = Ok (printed, matches)
  <-> exists outs : list (list str * list Field),
        Forall2 (fun r out => match_candidate E ocr r = Ok out) records outs
        /\ printed = concat (fst <$> outs)
        /\ matches = snd <$> outs.
Proof. unfold verify_all. by rewrite verify_all_from. Qed.

(** Candidate [i] has, as its entry in [matches], what [match_candidate]
    returns for it. *)
Lemma verify_all_lookup (E : Externals) (ocr : str) (records : list DbRecord)
    (printed : list str) (matches : list (list Field)) :
  verify_all E ocr records = Ok (printed, matches) ->
  length matches = length records
  /\ forall (i : nat) (r : DbRecord), records !! i = Some r ->
       exists lines fields,
         match_candidate E ocr r = Ok (lines, fields)
         /\ matches !! i = Some fields.
Proof.
  intros (outs & Houts & -> & ->)%verify_all_outs. split.
  - rewrite length_fmap. symmetry. by eapply Forall2_length.
  - intros i r Hi.
    destruct (Forall2_lookup_l _ _ _ _ _ Houts Hi) as ([lines fields] & Ho & Hr).
    exists lines, fields. split; [done|]. by rewrite list_lookup_fmap, Ho.
Qed.

Lemma match_scores_lookup (matches : list (list Field)) (i : nat) (s : Z) :
  match_scores matches !! i = Some s
  <-> exists fields, matches !! i = Some fields /\ s = Z.of_nat (length fields).
Proof.
  unfold match_scores. rewrite list_lookup_fmap.
  destruct (matches !! i) as [fields|]; simpl.
  - split; [intros [= <-]; eauto | intros (? & [= <-] & ->); done].
  - split; [done | intros (? & ? & ?); done].
Qed.

(** What [select] returns when the threshold is met: the hit and the spans
    at the first position of the highest score. *)
Lemma select_Some (min_matched_lines : Z) (file_path : str) (results : list Hit)
    (matches : list (list Field)) (m : MatchResult) :
  select min_matched_lines file_path results matches = Ok (Some m) ->
  min_matched_lines <= py_max (match_scores matches)
  /\ exists hit,
       results !! argmax (match_scores matches) = Some hit
       /\ matches !! argmax (match_scores matches) = Some (alignment m)
       /\ m = mkMatchResult file_path (record_id hit)
                            (py_max (match_scores matches)) (alignment m).
Proof.
  unfold select, index.
  destruct (Z.leb_spec min_matched_lines (py_max (match_scores matches)));
    [|done].
  destruct (results !! argmax (match_scores matches)) as [hit|]; [|done].
  destruct (matches !! argmax (match_scores matches)) as [fields|]; [|done].
  simpl. intros [= <-]. split; [done|]. by exists hit.
Qed.

(** A candidate's score is the number of spans its overlap resolution
    leaves (none when the resolution raises); [select] names the first
    candidate, in retrieval order, of the highest score, and names nobody
    when that score is below the threshold. *)
Lemma select_names_first_highest (E : Externals) (ocr : str)
    (min_matched_lines : Z) (file_path : str) (results : list Hit)
    (records : list DbRecord) (printed : list str) (matches : list (list Field)) :
  records ≠ [] ->
  length results = length records ->
  verify_all E ocr records = Ok (printed, matches) ->
  (forall (i : nat) (r : DbRecord) (raw : list Field),
     records !! i = Some r -> collect_fields E ocr r = Ok raw ->
     match correct_overlaps E raw with
     | Ok resolved => match_scores matches !! i = Some (Z.of_nat (length resolved))
     | Raise _ => match_scores matches !! i = Some 0
     end)
  /\ (py_max (match_scores matches) < min_matched_lines ->
      select min_matched_lines file_path results matches = Ok None)
  /\ (min_matched_lines <= py_max (match_scores matches) ->
      exists (i : nat) (hit : Hit) (fields : list Field),
        results !! i = Some hit /\ matches !! i = Some fields
        /\ select min_matched_lines file_path results matches
           = Ok (Some (mkMatchResult file_path (record_id hit)
                                     (Z.of_nat (length fields)) fields))
        /\ forall (j : nat) (other : list Field), matches !! j = Some other ->
             (length other <= length fields)%nat
             /\ (length other = length fields -> (i <= j)%nat)).
Proof.
  intros Hne Hlen Hverify.
  destruct (verify_all_lookup _ _ _ _ _ Hverify) as [Hlen' Hlookup].
  split; [|split].
  - intros i r raw Hi Hraw.
    destruct (Hlookup i r Hi) as (lines & fields & Hmc & Hm).
    destruct (correct_overlaps E raw) as [resolved|e] eqn:Hres.
    + rewrite (match_candidate_resolved _ _ _ _ _ Hraw Hres) in Hmc.
      injection Hmc as <- <-. apply match_scores_lookup.
      exists (reslice ocr <$> resolved). by rewrite length_fmap.
    + rewrite (match_candidate_failed _ _ _ _ _ Hraw Hres) in Hmc.
      injection Hmc as <- <-. apply match_scores_lookup. by exists [].
  - intros Hlow. unfold select.
    by destruct (Z.leb_spec min_matched_lines (py_max (match_scores matches)));
      [lia|].
  - intros Hhigh.
    assert (Hscores : match_scores matches ≠ []).
    { intros Heq%(f_equal length). unfold match_scores in Heq.
      rewrite length_fmap, Hlen' in Heq. by destruct records. }
    destruct (argmax_first_max _ Hscores) as [Hat Hmax].
    apply match_scores_lookup in Hat as (fields & Hfields & HM).
    destruct (results !! argmax (match_scores matches)) as [hit|] eqn:Hhit.
    2: { apply lookup_ge_None in Hhit. apply lookup_lt_Some in Hfields. lia. }
    exists (argmax (match_scores matches)), hit, fields.
    split_and!; try done.
    + unfold select, index.
      destruct (Z.leb_spec min_matched_lines (py_max (match_scores matches)));
        [|lia].
      rewrite Hhit, Hfields. simpl. by rewrite HM.
    + intros j other Hj.
      destruct (Hmax j (Z.of_nat (length other))) as [Hle Hfirst].
      { apply match_scores_lookup. eauto. }
      split; [lia|]. intros Heq. apply Hfirst. lia.
Qed.

(** C10, amended: with a threshold of at least one field, the record that
    [select] names has at least one span left by its verification, at
    whatever rank it was retrieved. *)
Theorem select_skips_empty_candidates (min_matched_lines : Z) (file_path : str)
    (results : list Hit) (matches : list (list Field)) (m : MatchResult) :
  1 <= min_matched_lines ->
  select min_matched_lines file_path results matches = Ok (Some m) ->
  alignment m ≠ []
  /\ min_matched_lines <= score m
  /\ exists (i : nat) (hit : Hit),
       results !! i = Some hit /\ best_record m = record_id hit
       /\ matches !! i = Some (alignment m)
       /\ score m = Z.of_nat (length (alignment m)).
Proof.
  intros Hmin (Hhigh & hit & Hhit & Hfields & Hm)%select_Some.
  assert (Hscore : score m = Z.of_nat (length (alignment m))).
  { assert (Hscores : match_scores matches ≠ []).
    { intros Heq. assert (Hnil : matches = []).
      { apply (f_equal length) in Heq. unfold match_scores in Heq.
        rewrite length_fmap in Heq. by destruct matches. }
      by rewrite Hnil in Hfields. }
    destruct (argmax_first_max _ Hscores) as [Hat _].
    apply match_scores_lookup in Hat as (fields & Hfields' & HM).
    rewrite Hfields in Hfields'. injection Hfields' as <-.
    rewrite Hm. simpl. done. }
  assert (Hms : score m = py_max (match_scores matches)) by (by rewrite Hm).
  split_and!.
  - intros Hnil. rewrite Hnil in Hscore. simpl in Hscore. lia.
  - lia.
  - exists (argmax (match_scores matches)), hit.
    split_and!; try done. by rewrite Hm.
Qed.

(** ** Loops that may raise *)

Lemma for_each_app {S A : Type} (body : S -> A -> result S) (s : S)
    (xs ys : list A) :
  for_each body s (xs ++ ys) = (s' ← for_each body s xs; for_each body s' ys).
Proof.
  revert s. induction xs as [|x xs IH]; intros s; simpl; [done|].
  destruct (body s x) as [s'|e]; simpl; [apply IH | done].
Qed.

(** The first turn that raises ends the loop: the elements after it are not
    visited. *)
Lemma for_each_raises {S A : Type} (body : S -> A -> result S) (s s' : S)
    (before : list A) (x : A) (after : list A) (e : exn) :
  for_each body s before = Ok s' ->
  body s' x = Raise e ->
  for_each body s (before ++ x :: after) = Raise e.
Proof. intros Hb Hx. rewrite for_each_app, Hb. simpl. by rewrite Hx. Qed.

(** A loop raises [e] when one element makes the body raise [e] in every
    state and the body raises nothing else. *)
Lemma for_each_raises_in {S A : Type} (body : S -> A -> result S) (s : S)
    (xs : list A) (x : A) (e : exn) :
  x ∈ xs ->
  (forall s, body s x = Raise e) ->
  (forall s y e', body s y = Raise e' -> e' = e) ->
  for_each body s xs = Raise e.
Proof.
  intros Hin Hx Honly. revert s.
  induction xs as [|y xs IH]; intros s.
  - by apply elem_of_nil in Hin.
  - simpl. apply elem_of_cons in Hin as [<- | Hin].
    + by rewrite Hx.
    + destruct (body s y) as [s'|e'] eqn:Hy; simpl.
      * by apply IH.
      * by rewrite (Honly _ _ _ Hy).
Qed.

(** ** The window of the main loop *)

Lemma window_take_drop (all_lines : list str) (idx : Z) :
  0 <= idx ->
  window all_lines idx = take 10 (drop (Z.to_nat idx) all_lines).
Proof.
  intros Hidx. unfold window. rewrite py_slice_take_drop by lia.
  by replace (Z.to_nat (idx + 10 - idx)) with 10%nat by lia.
Qed.

Lemma window_lookup (all_lines : list str) (idx : Z) (k : nat) (line : str) :
  0 <= idx ->
  window all_lines idx !! k = Some line
  <-> (k < 10)%nat /\ all_lines !! (Z.to_nat idx + k)%nat = Some line.
Proof.
  intros Hidx. rewrite window_take_drop by done.
  rewrite lookup_take_Some, lookup_drop. tauto.
Qed.

Lemma print_all_counter (lines : list str) (st : Run) :
  nb_cards_searched (fold_left print lines st) = nb_cards_searched st.
Proof. revert st. induction lines as [|l lines IH]; intros st; simpl; [done|]. by rewrite IH. Qed.

(** Every card that the loop gets through is counted once. *)
Lemma process_card_counts (E : Externals) (min_matched_lines : Z)
    (txn_ocr : gmap (list N) str) (txn_bib : gmap (list N) DbRecord)
    (st st' : Run) (line : str) :
  process_card E min_matched_lines txn_ocr txn_bib st line = Ok st' ->
  nb_cards_searched st' = nb_cards_searched st + 1.
Proof.
  unfold process_card.
  destruct (load_ocr _ _) as [ocr|]; simpl; [|done].
  destruct (parse_alignments _ _ _) as [parsed|]; simpl; [|done].
  destruct (search_phrase _ _ _ _) as [results|[]]; simpl; try done.
  - destruct (fetch_records _ _) as [records|]; simpl; [|done].
    destruct (verify_all _ _ _) as [[printed matches]|]; simpl; [|done].
    destruct matches as [|fields matches].
    + intros [= <-]. simpl. by rewrite print_all_counter.
    + destruct (select _ _ _ _) as [[m|]|]; simpl; [| |done].
      * intros [= <-]. simpl. by rewrite print_all_counter.
      * intros [= <-]. simpl. by rewrite print_all_counter.
  - by intros [= <-].
Qed.

Lemma for_each_process_card_counts (E : Externals) (min_matched_lines : Z)
    (txn_ocr : gmap (list N) str) (txn_bib : gmap (list N) DbRecord)
    (lines : list str) (st st' : Run) :
  for_each (process_card E min_matched_lines txn_ocr txn_bib) st lines = Ok st' ->
  nb_cards_searched st' = nb_cards_searched st + Z.of_nat (length lines).
Proof.
  revert st. induction lines as [|line lines IH]; intros st; simpl.
  - intros [= <-]. lia.
  - destruct (process_card _ _ _ _ st line) as [st1|] eqn:H1; simpl; [|done].
    intros Hrest. rewrite (IH _ Hrest), (process_card_counts _ _ _ _ _ _ _ H1). lia.
Qed.

(** C4: for the index drawn between 0 and 2000000 the loop visits the lines
    [all_lines[idx:idx+10]] and nothing else: at most ten lines, those at
    the positions [idx .. idx+9] that exist; the lines elsewhere do not
    matter to the run, and another index can give other lines. *)
Theorem main_loop_window (E : Externals) (min_matched_lines : Z)
    (txn_ocr : gmap (list N) str) (txn_bib : gmap (list N) DbRecord)
    (all_lines : list str) (idx : Z) :
  randint_low <= idx <= randint_high ->
  run_loop E min_matched_lines txn_ocr txn_bib all_lines idx
  = for_each (process_card E min_matched_lines txn_ocr txn_bib) initial_run
             (take 10 (drop (Z.to_nat idx) all_lines))
  /\ (length (window all_lines idx) <= 10)%nat
  /\ (forall (k : nat) (line : str),
        window all_lines idx !! k = Some line
        <-> (k < 10)%nat /\ all_lines !! (Z.to_nat idx + k)%nat = Some line)
  /\ (forall st, run_loop E min_matched_lines txn_ocr txn_bib all_lines idx = Ok st ->
        0 <= nb_cards_searched st <= 10)
  /\ (forall other_lines : list str,
        (forall k : nat, (k < 10)%nat ->
           other_lines !! (Z.to_nat idx + k)%nat = all_lines !! (Z.to_nat idx + k)%nat) ->
        run_loop E min_matched_lines txn_ocr txn_bib other_lines idx
        = run_loop E min_matched_lines txn_ocr txn_bib all_lines idx)
  /\ (forall idx' : Z, randint_low <= idx' <= randint_high -> idx' ≠ idx ->
        exists lines : list str, window lines idx' ≠ window lines idx).
Proof.
  unfold randint_low, randint_high. intros Hidx.
  assert (Hlen : (length (window all_lines idx) <= 10)%nat).
  { rewrite window_take_drop by lia. rewrite length_take. lia. }
  split_and!.
  - unfold run_loop. by rewrite window_take_drop by lia.
  - done.
  - intros k line. apply window_lookup. lia.
  - intros st Hst. unfold run_loop in Hst.
    apply for_each_process_card_counts in Hst. simpl in Hst. lia.
  - intros other Hsame. unfold run_loop. f_equal.
    rewrite !window_take_drop by lia. apply list_eq. intros k.
    destruct (decide (k < 10)%nat) as [Hk|Hk].
    + rewrite !lookup_take_lt, !lookup_drop by done. by apply Hsame.
    + by rewrite !lookup_take_ge by lia.
  - intros idx' Hidx' Hne.
    exists (replicate (S (Z.to_nat (Z.min idx idx'))) []).
    rewrite !window_take_drop by lia. intros Heq.
    apply (f_equal length) in Heq.
    rewrite !length_take, !length_drop, !length_replicate in Heq. lia.
Qed.

(** ** Timeouts *)

(** C7: [search_phrase] returns what the search returns when the call ends
    within 60 seconds and raises [TimeoutError] otherwise; then the card is
    counted, the skip is printed, no second search is issued, both outputs
    stay as they were, and the loop goes on with the next line. *)
Theorem timed_out_card_is_skipped (E : Externals) (min_matched_lines : Z)
    (txn_ocr : gmap (list N) str) (txn_bib : gmap (list N) DbRecord)
    (st : Run) (line : str) (rest : list str) (ocr : str) (parsed : Alignments) :
  load_ocr (strip (card_path line)) txn_ocr = Ok ocr ->
  parse_alignments E (card_alignments line) ocr = Ok parsed ->
  let call := searcher_search E (searches st) (build_query E parsed) in
  (elapsed_ms call < 60 * 1000 ->
   search_phrase E (searches st) parsed ocr = Ok (outcome call))
  /\ (60 * 1000 <= elapsed_ms call ->
      let skipped :=
        mkRun (nb_cards_searched st + 1) (matching_output st) (alignment_output st)
              (stdout st
               ++ [[]; lit "Matching " ++ card_path line;
                   lit "Timeout reached on file " ++ card_path line
                   ++ lit ", skipping"])
              (S (searches st)) in
      search_phrase E (searches st) parsed ocr = Raise TimeoutError
      /\ process_card E min_matched_lines txn_ocr txn_bib st line = Ok skipped
      /\ for_each (process_card E min_matched_lines txn_ocr txn_bib) st (line :: rest)
         = for_each (process_card E min_matched_lines txn_ocr txn_bib) skipped rest).
Proof.
  intros Hocr Hparsed call. unfold search_phrase, timeout. fold call. split.
  - intros Hfast. by destruct (Z.leb_spec (60 * 1000) (elapsed_ms call)); [lia|].
  - intros Hslow.
    assert (Hcard : process_card E min_matched_lines txn_ocr txn_bib st line
                    = Ok (mkRun (nb_cards_searched st + 1) (matching_output st)
                            (alignment_output st)
                            (stdout st
                             ++ [[]; lit "Matching " ++ card_path line;
                                 lit "Timeout reached on file " ++ card_path line
                                 ++ lit ", skipping"])
                            (S (searches st)))).
    { unfold process_card. rewrite Hocr. simpl. rewrite Hparsed. simpl.
      unfold search_phrase, timeout. fold call.
      destruct (Z.leb_spec (60 * 1000) (elapsed_ms call)); [|lia].
      unfold print. simpl. by rewrite <- !app_assoc. }
    split_and!.
    + by destruct (Z.leb_spec (60 * 1000) (elapsed_ms call)); [|lia].
    + done.
    + simpl. by rewrite Hcard.
Qed.

(** ** Failures *)

(** C8, amended: when [correct_overlaps] raises for a candidate, the
    candidate gets the empty list and so the score 0, the one line printed
    is the fixed text [overlaps_error], the same for every record, and the
    candidates before and after it are verified as they are without it. *)
Theorem failed_resolution_scores_zero (E : Externals) (ocr : str)
    (before : list DbRecord) (r : DbRecord) (after : list DbRecord)
    (raw : list Field) (e : exn)
    (printed1 printed2 : list str) (matches1 matches2 : list (list Field)) :
  collect_fields E ocr r = Ok raw ->
  correct_overlaps E raw = Raise e ->
  verify_all E ocr before = Ok (printed1, matches1) ->
  verify_all E ocr after = Ok (printed2, matches2) ->
  match_candidate E ocr r = Ok ([overlaps_error], [])
  /\ verify_all E ocr (before ++ r :: after)
     = Ok (printed1 ++ overlaps_error :: printed2, matches1 ++ [] :: matches2)
  /\ match_scores (matches1 ++ [] :: matches2) !! length before = Some 0.
Proof.
  intros Hraw Hres
    (outs1 & Houts1 & -> & ->)%verify_all_outs
    (outs2 & Houts2 & -> & ->)%verify_all_outs.
  pose proof (match_candidate_failed _ _ _ _ _ Hraw Hres) as Hr.
  split_and!.
  - done.
  - apply verify_all_outs. exists (outs1 ++ ([overlaps_error], []) :: outs2).
    split_and!.
    + apply Forall2_app; [done|]. by constructor.
    + by rewrite fmap_app, concat_app.
    + by rewrite fmap_app.
  - apply match_scores_lookup. exists []. split; [|done].
    rewrite lookup_app_r; rewrite length_fmap, <- (Forall2_length _ _ _ Houts1);
      [|lia].
    by rewrite Nat.sub_diag.
Qed.

(** [parse_alignments] raises nothing but [ValueError], and raises it as
    soon as one field does not split into a label and two integers. *)
Lemma parse_alignment_malformed (E : Externals) (ocr : str) (res : Alignments)
    (alignment : str) :
  (length (split alignment) ≠ 3%nat
   \/ exists token, token ∈ tail (split alignment) /\ py_int E token = None) ->
  parse_alignment E ocr res alignment = Raise ValueError.
Proof.
  unfold parse_alignment.
  destruct (split alignment) as [|label [|start [|end_ [|? ?]]]]; simpl; try done.
  intros [? | (token & Hin & Hint)]; [done|].
  apply elem_of_cons in Hin as [-> | Hin].
  - by rewrite Hint.
  - apply list_elem_of_singleton in Hin as ->. rewrite Hint.
    by destruct (py_int E start).
Qed.

Lemma parse_alignments_malformed (E : Externals) (ocr : str)
    (alignments : list str) (alignment : str) :
  alignment ∈ alignments ->
  (length (split alignment) ≠ 3%nat
   \/ exists token, token ∈ tail (split alignment) /\ py_int E token = None) ->
  parse_alignments E alignments ocr = Raise ValueError.
Proof.
  intros Hin Hbad. unfold parse_alignments.
  apply (for_each_raises_in _ _ _ alignment); [done | |].
  - intros res. by apply parse_alignment_malformed.
  - intros res a e'. unfold parse_alignment.
    repeat case_match; congruence.
Qed.

(** ** Ranges of the spans and outputs of a card *)

Lemma for_each_invariant {S A : Type} (P : S -> Prop) (body : S -> A -> result S)
    (xs : list A) (s s' : S) :
  (forall s x s', P s -> body s x = Ok s' -> P s') ->
  P s -> for_each body s xs = Ok s' -> P s'.
Proof.
  intros Hbody. revert s. induction xs as [|x xs IH]; intros s Hs; simpl.
  - by intros [= <-].
  - destruct (body s x) as [s1|] eqn:Hx; simpl; [|done].
    apply IH. by eapply Hbody.
Qed.

(** When the search only reports windows of the OCR text, every span that
    the verifier collects is a range of that text. *)
Lemma collect_fields_in_text (E : Externals) (ocr : str) (db_entries : DbRecord)
    (raw : list Field) :
  (forall pattern d matches m,
     find_near_matches E pattern ocr d = Ok matches -> m ∈ matches ->
     0 <= start m <= end_ m /\ end_ m <= Z.of_nat (length ocr)) ->
  collect_fields E ocr db_entries = Ok raw ->
  Forall (in_text ocr) raw.
Proof.
  intros Hwindows. unfold collect_fields.
  apply (for_each_invariant (Forall (in_text ocr))); [|constructor].
  intros fields [raw_label raw_text] fields' Hfields.
  apply (for_each_invariant (Forall (in_text ocr))); [|done].
  clear fields fields' Hfields.
  intros fields [label text] fields' Hfields. unfold match_field, find_best.
  destruct (find_near_matches E text ocr (get_max_dist text))
    as [matches|e] eqn:Hfnm; simpl.
  - destruct (lowest_match matches) as [lowest|] eqn:Hlow.
    + intros [= <-]. apply Forall_app. split; [done|].
      constructor; [|constructor].
      destruct (lowest_match_first _ _ Hlow) as (i & Hi & _).
      apply (Hwindows text (get_max_dist text) matches lowest Hfnm).
      apply list_elem_of_lookup. eauto.
    + by intros [= <-].
  - destruct e; simpl; try done. by intros [= <-].
Qed.

(** What a card adds to the outputs once its candidates are verified: the
    lines of the selected match, or nothing. *)
Lemma process_card_outputs (E : Externals) (min_matched_lines : Z)
    (txn_ocr : gmap (list N) str) (txn_bib : gmap (list N) DbRecord)
    (st : Run) (line : str) (ocr : str) (parsed : Alignments)
    (results : list Hit) (records : list DbRecord) (printed : list str)
    (matches : list (list Field)) (chosen : option MatchResult) :
  load_ocr (strip (card_path line)) txn_ocr = Ok ocr ->
  parse_alignments E (card_alignments line) ocr = Ok parsed ->
  search_phrase E (searches st) parsed ocr = Ok results ->
  fetch_records txn_bib results = Ok records ->
  verify_all E ocr records = Ok (printed, matches) ->
  matches ≠ [] ->
  select min_matched_lines (card_path line) results matches = Ok chosen ->
  exists st',
    process_card E min_matched_lines txn_ocr txn_bib st line = Ok st'
    /\ matching_output st'
       = matching_output st ++ from_option matching_line [] chosen
    /\ alignment_output st'
       = alignment_output st ++ from_option alignment_line [] chosen.
Proof.
  intros Hocr Hparsed Hsearch Hfetch Hverify Hne Hselect.
  unfold process_card. rewrite Hocr. simpl. rewrite Hparsed. simpl.
  rewrite Hsearch, Hfetch. simpl. rewrite Hverify. simpl.
  destruct matches as [|fields matches]; [done|].
  rewrite Hselect. simpl.
  assert (Hm : forall lines s, matching_output (fold_left print lines s)
                               = matching_output s).
  { induction lines as [|l lines IH]; intros s; simpl; [done|]. by rewrite IH. }
  assert (Ha : forall lines s, alignment_output (fold_left print lines s)
                               = alignment_output s).
  { induction lines as [|l lines IH]; intros s; simpl; [done|]. by rewrite IH. }
  destruct chosen as [m|]; eexists; (split; [reflexivity|]); simpl;
    rewrite Hm, Ha; simpl; by rewrite ?app_nil_r.
Qed.

(** * Examples on the small corpus *)

(** The budget of a title of six code points and of an author of eleven. *)
Lemma get_max_dist_schedule_witness :
  (length (lit "Hamlet") <= length (lit "Shakespeare"))%nat
  /\ get_max_dist (lit "Hamlet") <= get_max_dist (lit "Shakespeare")
  /\ (6 <= length (lit "Hamlet") < 11)%nat
  /\ get_max_dist (lit "Hamlet") = 2.
Proof.
  assert (H1 : (length (lit "Hamlet") <= length (lit "Shakespeare"))%nat)
    by (vm_compute; lia).
  assert (H2 : (6 <= length (lit "Hamlet") < 11)%nat) by (vm_compute; lia).
  pose proof (get_max_dist_schedule (lit "Hamlet") (lit "Shakespeare"))
    as (Hmono & _ & _ & Hmid & _).
  exact (conj H1 (conj (Hmono H1) (conj H2 (Hmid H2)))).
Defined.



(** The query for [card1]: its author goes to both author fields, its title
    to [title]. *)
Lemma build_query_terms_witness :
  build_query quick card1_alignments = Or (spec_terms quick card1_alignments)
  /\ mkFuzzyTerm (lit "author2") (lit "Shakespeae") 2 0
     ∈ spec_terms quick card1_alignments
  /\ mkFuzzyTerm (lit "title") (lit "Hamlet") 2 0
     ∈ spec_terms quick card1_alignments.
Proof.
  pose proof (build_query_terms quick card1_alignments) as [Hquery Hterms].
  split; [exact Hquery|]. split.
  - apply Hterms.
    exists (lit "Author"), [lit "William Shakespeae"], (lit "William Shakespeae").
    split_and!; simpl.
    + apply list_elem_of_here.
    + apply list_elem_of_here.
    + apply split_tokens.
    + vm_compute. apply list_elem_of_further, list_elem_of_here.
    + vm_compute. lia.
    + reflexivity.
    + reflexivity.
    + vm_compute. by right.
  - apply Hterms.
    exists (lit "Title"), [lit "Hamlet"], (lit "Hamlet").
    split_and!; simpl.
    + apply list_elem_of_further, list_elem_of_here.
    + apply list_elem_of_here.
    + apply split_tokens.
    + vm_compute. apply list_elem_of_here.
    + vm_compute. lia.
    + reflexivity.
    + reflexivity.
    + vm_compute. reflexivity.
Defined.

(** The two fields of [rec42] verified against [card1]. *)
Lemma match_candidate_reslices_witness :
  collect_fields quick card1_ocr rec42 = Ok card1_fields
  /\ correct_overlaps quick card1_fields = Ok card1_fields
  /\ exists fields,
       match_candidate quick card1_ocr rec42 = Ok ([], fields)
       /\ length fields = length card1_fields
       /\ forall (i : nat) (span : Field), card1_fields !! i = Some span ->
            exists line,
              fields !! i = Some line
              /\ label line = label span
              /\ from line = from span /\ to line = to span
              /\ text line = py_slice card1_ocr (from line) (to line)
              /\ (exists pre post, card1_ocr = pre ++ text line ++ post)
              /\ (in_text card1_ocr span ->
                  Z.of_nat (length (text line)) = to line - from line).
Proof.
  assert (H1 : collect_fields quick card1_ocr rec42 = Ok card1_fields)
    by (vm_compute; reflexivity).
  assert (H2 : correct_overlaps quick card1_fields = Ok card1_fields)
    by reflexivity.
  exact (conj H1 (conj H2
           (match_candidate_reslices quick card1_ocr rec42 card1_fields
              card1_fields H1 H2))).
Defined.

(** With the threshold 2 the record selected for [card1] is [rec42], with
    its two fields. *)
Lemma select_skips_empty_candidates_witness :
  1 <= 2
  /\ select 2 (lit "card1") [mkHit (lit "rec7"); mkHit (lit "rec42")]
            [[]; card1_fields]
     = Ok (Some (mkMatchResult (lit "card1") (lit "rec42") 2 card1_fields))
  /\ card1_fields ≠ [].
Proof.
  assert (H1 : 1 <= 2) by lia.
  assert (H2 : select 2 (lit "card1") [mkHit (lit "rec7"); mkHit (lit "rec42")]
                      [[]; card1_fields]
               = Ok (Some (mkMatchResult (lit "card1") (lit "rec42") 2 card1_fields)))
    by (vm_compute; reflexivity).
  exact (conj H1 (conj H2
           (proj1 (select_skips_empty_candidates 2 (lit "card1")
                     [mkHit (lit "rec7"); mkHit (lit "rec42")] [[]; card1_fields]
                     (mkMatchResult (lit "card1") (lit "rec42") 2 card1_fields)
                     H1 H2)))).
Defined.

(** The window at index 1 of a file of three lines. *)
Lemma main_loop_window_witness :
  randint_low <= 1 <= randint_high
  /\ (length (window [card9_line; card1_line; short_line] 1) <= 10)%nat
  /\ (forall (k : nat) (line : str),
        window [card9_line; card1_line; short_line] 1 !! k = Some line
        <-> (k < 10)%nat
            /\ [card9_line; card1_line; short_line] !! (Z.to_nat 1 + k)%nat
               = Some line).
Proof.
  assert (H1 : randint_low <= 1 <= randint_high) by (vm_compute; split; discriminate).
  pose proof (main_loop_window quick 3 ocr_store bib_store
                [card9_line; card1_line; short_line] 1 H1)
    as (_ & Hlen & Hlookup & _).
  exact (conj H1 (conj Hlen Hlookup)).
Defined.

(** A search of one minute on [card1]: the card is counted and skipped. *)
Lemma timed_out_card_is_skipped_witness :
  load_ocr (strip (card_path card1_line)) ocr_store = Ok card1_ocr
  /\ parse_alignments slow (card_alignments card1_line) card1_ocr
     = Ok card1_alignments
  /\ 60 * 1000
     <= elapsed_ms (searcher_search slow (searches initial_run)
                      (build_query slow card1_alignments))
  /\ search_phrase slow (searches initial_run) card1_alignments card1_ocr
     = Raise TimeoutError
  /\ process_card slow 3 ocr_store bib_store initial_run card1_line
     = Ok (mkRun 1 [] []
             [[]; lit "Matching card1";
              lit "Timeout reached on file card1, skipping"] 1).
Proof.
  assert (H1 : load_ocr (strip (card_path card1_line)) ocr_store = Ok card1_ocr)
    by (vm_compute; reflexivity).
  assert (H2 : parse_alignments slow (card_alignments card1_line) card1_ocr
               = Ok card1_alignments) by (vm_compute; reflexivity).
  assert (H3 : 60 * 1000
               <= elapsed_ms (searcher_search slow (searches initial_run)
                                (build_query slow card1_alignments)))
    by (vm_compute; discriminate).
  pose proof (timed_out_card_is_skipped slow 3 ocr_store bib_store initial_run
                card1_line [card1_line] card1_ocr card1_alignments H1 H2)
    as [_ Hslow].
  destruct (Hslow H3) as (Hraise & Hcard & _).
  exact (conj H1 (conj H2 (conj H3 (conj Hraise Hcard)))).
Defined.

(** Two candidates for [card1] with a resolver that raises on each. *)
Lemma failed_resolution_scores_zero_witness :
  collect_fields quick_failing card1_ocr rec42 = Ok card1_fields
  /\ correct_overlaps quick_failing card1_fields
     = Raise (OtherError "RecursionError")
  /\ verify_all quick_failing card1_ocr [rec7] = Ok ([overlaps_error], [[]])
  /\ verify_all quick_failing card1_ocr [] = Ok ([], [])
  /\ match_candidate quick_failing card1_ocr rec42 = Ok ([overlaps_error], [])
  /\ verify_all quick_failing card1_ocr ([rec7] ++ rec42 :: [])
     = Ok ([overlaps_error] ++ overlaps_error :: [], [[]] ++ [] :: [])
  /\ match_scores ([[]] ++ [] :: []) !! length [rec7] = Some 0.
Proof.
  assert (H1 : collect_fields quick_failing card1_ocr rec42 = Ok card1_fields)
    by (vm_compute; reflexivity).
  assert (H2 : correct_overlaps quick_failing card1_fields
               = Raise (OtherError "RecursionError")) by reflexivity.
  assert (H3 : verify_all quick_failing card1_ocr [rec7]
               = Ok ([overlaps_error], [[]])) by (vm_compute; reflexivity).
  assert (H4 : verify_all quick_failing card1_ocr [] = Ok ([], []))
    by reflexivity.
  exact (conj H1 (conj H2 (conj H3 (conj H4
           (failed_resolution_scores_zero quick_failing card1_ocr [rec7] rec42 []
              card1_fields (OtherError "RecursionError")
              [overlaps_error] [] [[]] [] H1 H2 H3 H4))))).
Defined.

(** C8, as stated, fails: the resolver raises while [rec42] is verified for
    [card1]; the candidate scores 0 and the run goes on, but the line
    printed for the failure is the fixed text, and nothing printed in the
    run contains the identifier of the record. *)
Lemma resolver_failure_log_names_no_record :
  match_candidate quick_failing card1_ocr rec42 = Ok ([overlaps_error], [])
  /\ contains overlaps_error (lit "rec42") = false
  /\ exists st,
       run_loop quick_failing 3 ocr_store bib_store [card1_line] 0 = Ok st
       /\ overlaps_error ∈ stdout st
       /\ Forall (fun line => contains line (lit "rec42") = false) (stdout st).
Proof.
  split; [vm_compute; reflexivity|]. split; [vm_compute; reflexivity|].
  eexists. split; [vm_compute; reflexivity|]. split.
  - apply list_elem_of_further, list_elem_of_further, list_elem_of_here.
  - repeat constructor; vm_compute; reflexivity.
Qed.

(** C9: the driver does not recover from a defective card.  A line with a
    field of two tokens, or with offsets that are no integers, a card
    without OCR text, or a hit without a record document, each in front of
    a good line, makes [main] raise: the good line is not reached and
    nothing is saved, while the good line alone is matched and saved, and
    so is the good line behind a card whose search times out. *)
Lemma defective_card_is_fatal :
  main quick 2 ocr_store bib_store [short_line; card1_line] 0 = Raise ValueError
  /\ main quick 2 ocr_store bib_store [letters_line; card1_line] 0
     = Raise ValueError
  /\ main quick 2 ocr_store bib_store [card9_line; card1_line] 0
     = Raise AttributeError
  /\ main (plain_externals (fun calls _ =>
             mkTimed 10 [mkHit (lit (if Nat.eqb calls 0 then "rec1" else "rec42"))]))
          2 ocr_store bib_store [card1_line; card1_line] 0
     = Raise AttributeError
  /\ main quick 2 ocr_store bib_store [card1_line] 0
     = Ok (mkSaved (lit "card1" ++ [TAB] ++ lit "Author 8 18" ++ [TAB]
                    ++ lit "Title 19 25" ++ [LF])
                   (lit "card1" ++ [TAB] ++ lit "rec42" ++ [TAB] ++ lit "2" ++ [LF]))
  /\ main (plain_externals (fun calls _ =>
             mkTimed (if Nat.eqb calls 0 then 60000 else 10) [mkHit (lit "rec42")]))
          2 ocr_store bib_store [card1_line; card1_line] 0
     = Ok (mkSaved (lit "card1" ++ [TAB] ++ lit "Author 8 18" ++ [TAB]
                    ++ lit "Title 19 25" ++ [LF])
                   (lit "card1" ++ [TAB] ++ lit "rec42" ++ [TAB] ++ lit "2" ++ [LF])).
Proof. split_and!; vm_compute; reflexivity. Qed.

(** C10, as stated, fails: with [--min-matched-lines 0] the record [rec7],
    none of whose fields is found in the card, is selected and written to
    the outputs with the score 0. *)
Lemma zero_field_record_selected :
  verify_all quick_rec7 card1_ocr [rec7] = Ok ([], [[]])
  /\ select 0 (lit "card1") [mkHit (lit "rec7")] [[]]
     = Ok (Some (mkMatchResult (lit "card1") (lit "rec7") 0 []))
  /\ main quick_rec7 0 ocr_store bib_store [card1_line] 0
     = Ok (mkSaved (lit "card1" ++ [LF])
                   (lit "card1" ++ [TAB] ++ lit "rec7" ++ [TAB] ++ lit "0" ++ [LF])).
Proof. split_and!; vm_compute; reflexivity. Qed.

(** * More of the driver *)

(** ** Acceptable OCR lines *)

(** X1: [ocr_line_acceptable] accepts exactly the lines of 3 to 20 code
    points without the replacement character, and the distance budget of an
    accepted line is between 1 and 5. *)
Theorem ocr_line_acceptable_spec (line : str) :
  (ocr_line_acceptable line = true
   <-> (JOKER ∉ line) /\ (3 <= length line <= 20)%nat)
  /\ (ocr_line_acceptable line = true -> 1 <= get_max_dist line <= 5).
Proof.
  assert (Hiff : ocr_line_acceptable line = true
                 <-> (JOKER ∉ line) /\ (3 <= length line <= 20)%nat).
  { unfold ocr_line_acceptable. case_bool_decide as Hj.
    - split; [done | by intros [? _]].
    - destruct (Nat.ltb_spec (length line) 3); [split; [done | lia]|].
      destruct (Nat.ltb_spec 20 (length line)); [split; [done | lia]|].
      split; [|done]. intros _. split; [done | lia]. }
  split; [done|]. intros [_ Hlen]%Hiff.
  unfold get_max_dist, get_max_dist_limit, int_times_threshold.
  destruct (Z.ltb_spec (Z.of_nat (length line)) 6); [lia|].
  destruct (Z.ltb_spec (Z.of_nat (length line)) 11); [lia|].
  assert (2 <= Z.of_nat (length line) / 4) by (apply Z.div_le_lower_bound; lia).
  assert (Z.of_nat (length line) / 4 <= 5).
  { apply Z.lt_succ_r, Z.div_lt_upper_bound; lia. }
  lia.
Qed.

(** A line of four code points is accepted, with the budget 1. *)
Lemma ocr_line_acceptable_spec_witness :
  ocr_line_acceptable (lit "1603") = true
  /\ 1 <= get_max_dist (lit "1603") <= 5.
Proof.
  assert (H : ocr_line_acceptable (lit "1603") = true) by reflexivity.
  exact (conj H (proj2 (ocr_line_acceptable_spec (lit "1603")) H)).
Defined.

(** ** The alignments dict *)

Lemma dict_append_keys (d : Alignments) (label v : str) :
  (fst <$> dict_append d label v)
  = if bool_decide (label ∈ (fst <$> d)) then (fst <$> d) else (fst <$> d) ++ [label].
Proof.
  induction d as [|[k vs] d IH]; [done|]. simpl.
  destruct (decide (k = label)) as [->|Hne]; rewrite !fmap_cons; simpl.
  - rewrite bool_decide_eq_true_2; [done | by left].
  - rewrite IH. case_bool_decide as Hin.
    + rewrite bool_decide_eq_true_2; [done | by right].
    + rewrite bool_decide_eq_false_2; [done|].
      intros [?|?]%elem_of_cons; [congruence | done].
Qed.

Lemma dict_append_get (d : Alignments) (label v wanted : str) :
  default [] (NER.dict_get (dict_append d label v) wanted)
  = default [] (NER.dict_get d wanted)
    ++ (if decide (label = wanted) then [v] else []).
Proof.
  induction d as [|[k vs] d IH]; simpl.
  - destruct (decide (label = wanted)); simpl; [done|]. done.
  - destruct (decide (k = label)) as [->|Hne]; simpl.
    + destruct (decide (label = wanted)); simpl; [done | by rewrite app_nil_r].
    + destruct (decide (k = wanted)) as [->|Hne']; simpl; [|done].
      destruct (decide (label = wanted)); [congruence | by rewrite app_nil_r].
Qed.

Lemma dict_append_count (d : Alignments) (label v : str) :
  length (concat (snd <$> dict_append d label v)) = S (length (concat (snd <$> d))).
Proof.
  induction d as [|[k vs] d IH]; [done|]. cbn [dict_append].
  destruct (decide (k = label)); rewrite !fmap_cons; cbn [snd concat];
    rewrite !length_app.
  - cbn [length]. lia.
  - rewrite IH. lia.
Qed.

(** The loop of [parse_alignments] from any dict [res] with distinct keys. *)
Lemma parse_alignments_from (E : Externals) (ocr : str) (alignments : list str)
    (res d : Alignments) :
  for_each (parse_alignment E ocr) res alignments = Ok d ->
  NoDup (fst <$> res) ->
  NoDup (fst <$> d)
  /\ length (concat (snd <$> d)) = (length (concat (snd <$> res)) + length alignments)%nat
  /\ forall wanted : str,
       default [] (NER.dict_get d wanted)
       = default [] (NER.dict_get res wanted)
         ++ slices_of_label E ocr alignments wanted.
Proof.
  revert res. induction alignments as [|a alignments IH]; intros res; simpl.
  - intros [= <-] Hres. split; [done|]. split; [lia|].
    intros wanted. by rewrite app_nil_r.
  - destruct (parse_alignment E ocr res a) as [res'|] eqn:Ha; simpl; [|done].
    intros Hd Hres. unfold parse_alignment in Ha.
    destruct (split a) as [|l [|s [|e [|? ?]]]] eqn:Hsplit; try done.
    destruct (py_int E s) as [x|] eqn:Hs; [|done].
    destruct (py_int E e) as [y|] eqn:He; [|done].
    injection Ha as <-.
    destruct (IH _ Hd) as (Hnodup & Hcount & Hget).
    { rewrite dict_append_keys. case_bool_decide as Hin; [done|].
      apply NoDup_app. split_and!; [done | | apply NoDup_singleton].
      intros k Hk ->%list_elem_of_singleton. done. }
    split; [done|]. split.
    { rewrite Hcount, dict_append_count. lia. }
    intros wanted. by rewrite Hget, dict_append_get, <- app_assoc.
Qed.

(** X2: the dict that [parse_alignments] returns has distinct keys, holds one
    text per field of the line, and under every label the slices of the OCR
    text for the fields of that label, in the order of the line. *)
Theorem parse_alignments_groups (E : Externals) (ocr : str)
    (alignments : list str) (d : Alignments) :
  parse_alignments E alignments ocr = Ok d ->
  NoDup (fst <$> d)
  /\ length (concat (snd <$> d)) = length alignments
  /\ forall wanted : str,
       default [] (NER.dict_get d wanted) = slices_of_label E ocr alignments wanted.
Proof.
  intros Hd. unfold parse_alignments in Hd.
  destruct (parse_alignments_from _ _ _ _ _ Hd) as (Hnodup & Hcount & Hget).
  { constructor. }
  split; [done|]. split; [done|]. intros wanted. by rewrite Hget.
Qed.

(** The line of [card1]: two labels, one text each. *)
Lemma parse_alignments_groups_witness :
  parse_alignments quick (card_alignments card1_line) card1_ocr = Ok card1_alignments
  /\ NoDup (fst <$> card1_alignments)
  /\ length (concat (snd <$> card1_alignments)) = length (card_alignments card1_line)
  /\ forall wanted : str,
       default [] (NER.dict_get card1_alignments wanted)
       = slices_of_label quick card1_ocr (card_alignments card1_line) wanted.
Proof.
  assert (H : parse_alignments quick (card_alignments card1_line) card1_ocr
              = Ok card1_alignments) by (vm_compute; reflexivity).
  exact (conj H (parse_alignments_groups quick card1_ocr
                   (card_alignments card1_line) card1_alignments H)).
Defined.

(** A loop raises only what its body raises on one of the elements. *)
Lemma for_each_Raise_inv {S A : Type} (body : S -> A -> result S) (s : S)
    (xs : list A) (e : exn) :
  for_each body s xs = Raise e ->
  exists s' x, x ∈ xs /\ body s' x = Raise e.
Proof.
  revert s. induction xs as [|x xs IH]; intros s; simpl; [done|].
  destruct (body s x) as [s'|e'] eqn:Hx; simpl.
  - intros (s'' & y & Hy & Hraise)%IH. exists s'', y. split; [by right | done].
  - intros [= ->]. exists s, x. split; [by left | done].
Qed.

Lemma parse_alignment_Raise_inv (E : Externals) (ocr : str) (res : Alignments)
    (alignment : str) (e : exn) :
  parse_alignment E ocr res alignment = Raise e ->
  e = ValueError /\ malformed E alignment.
Proof.
  unfold parse_alignment, malformed.
  destruct (split alignment) as [|l [|s [|en [|? ?]]]] eqn:Hsplit; simpl;
    try (intros [= <-]; split; [done | left; done]).
  destruct (py_int E s) eqn:Hs.
  - destruct (py_int E en) eqn:He; [done|].
    intros [= <-]. split; [done|]. right. exists en. split; [|done].
    apply list_elem_of_further, list_elem_of_here.
  - intros [= <-]. split; [done|]. right. exists s. split; [|done].
    apply list_elem_of_here.
Qed.

(** X3: [parse_alignments] raises exactly when some field of the line does
    not split into a label and two integers, and then it raises
    [ValueError]. *)
Theorem parse_alignments_raises_iff (E : Externals) (ocr : str)
    (alignments : list str) (e : exn) :
  parse_alignments E alignments ocr = Raise e
  <-> e = ValueError /\ exists alignment, alignment ∈ alignments /\ malformed E alignment.
Proof.
  split.
  - unfold parse_alignments.
    intros (res & a & Ha & Hraise)%for_each_Raise_inv.
    apply parse_alignment_Raise_inv in Hraise as [-> Hbad]. eauto.
  - intros (-> & a & Ha & Hbad). by eapply parse_alignments_malformed.
Qed.

Lemma parse_alignments_raises_iff_witness :
  parse_alignments quick (card_alignments short_line) card1_ocr = Raise ValueError.
Proof.
  apply (parse_alignments_raises_iff quick card1_ocr (card_alignments short_line)).
  split; [done|]. exists (lit "Author 0" ++ [LF]).
  split; [vm_compute; apply list_elem_of_here|].
  left. vm_compute. discriminate.
Defined.

(** ** The spans collected for a record *)

Lemma match_field_step (E : Externals) (ocr : str) (fields fields' : list Field)
    (item : str * str) :
  match_field E ocr fields item = Ok fields' ->
  fields' = fields
  \/ exists span, span_of_field E ocr item span /\ fields' = fields ++ [span].
Proof.
  destruct item as [label text]. unfold match_field, find_best, span_of_field.
  simpl.
  destruct (find_near_matches E text ocr (get_max_dist text))
    as [matches|e] eqn:Hfnm; simpl.
  - destruct (lowest_match matches) as [lowest|] eqn:Hlow.
    + intros [= <-]. right. eexists. split; [|done]. by exists matches, lowest.
    + intros [= <-]. by left.
  - destruct e; simpl; try done. intros [= <-]. by left.
Qed.

Lemma match_fields_from (E : Externals) (ocr : str) (items : list (str * str))
    (fields fields' : list Field) :
  for_each (match_field E ocr) fields items = Ok fields' ->
  exists kept spans,
    kept `sublist_of` items
    /\ Forall2 (span_of_field E ocr) kept spans
    /\ fields' = fields ++ spans.
Proof.
  revert fields. induction items as [|item items IH]; intros fields; simpl.
  - intros [= <-]. exists [], []. by rewrite app_nil_r.
  - destruct (match_field E ocr fields item) as [fields1|] eqn:Hitem; simpl;
      [|done].
    intros (kept & spans & Hsub & Hspans & ->)%IH.
    apply match_field_step in Hitem as [-> | (span & Hspan & ->)].
    + exists kept, spans. split; [by apply sublist_cons | done].
    + exists (item :: kept), (span :: spans).
      split; [by apply sublist_skip|]. split; [by constructor|].
      by rewrite <- app_assoc.
Qed.

Lemma collect_fields_from (E : Externals) (ocr : str) (db_entries : DbRecord)
    (fields fields' : list Field) :
  for_each (fun fields '(raw_label, raw_text) =>
              for_each (match_field E ocr) fields
                       (generate_db_records E raw_label raw_text))
           fields db_entries = Ok fields' ->
  exists kept spans,
    kept `sublist_of` atomic_fields E db_entries
    /\ Forall2 (span_of_field E ocr) kept spans
    /\ fields' = fields ++ spans.
Proof.
  revert fields. induction db_entries as [|[raw_label raw_text] db IH];
    intros fields; simpl.
  - intros [= <-]. exists [], []. by rewrite app_nil_r.
  - destruct (for_each (match_field E ocr) fields
                (generate_db_records E raw_label raw_text))
      as [fields1|] eqn:Hinner; simpl; [|done].
    apply match_fields_from in Hinner as (kept1 & spans1 & Hsub1 & Hspans1 & ->).
    intros (kept2 & spans2 & Hsub2 & Hspans2 & ->)%IH.
    exists (kept1 ++ kept2), (spans1 ++ spans2).
    split; [|split].
    + change (atomic_fields E ((raw_label, raw_text) :: db))
        with (generate_db_records E raw_label raw_text ++ atomic_fields E db).
      by apply sublist_app.
    + by apply Forall2_app.
    + by rewrite <- app_assoc.
Qed.

(** X4: the spans that the verifier collects for a record are those of some
    of its atomic fields, in their order and at most one for each: the
    lowest occurrence that the search reports for the text of the field
    within its budget, under the label of the field. *)
Theorem collect_fields_spans (E : Externals) (ocr : str) (db_entries : DbRecord)
    (raw : list Field) :
  collect_fields E ocr db_entries = Ok raw ->
  (length raw <= length (atomic_fields E db_entries))%nat
  /\ exists kept,
       kept `sublist_of` atomic_fields E db_entries
       /\ Forall2 (span_of_field E ocr) kept raw.
Proof.
  intros (kept & spans & Hsub & Hspans & ->)%collect_fields_from. simpl.
  split; [|by exists kept].
  rewrite <- (Forall2_length _ _ _ Hspans). by apply sublist_length.
Qed.

(** The two fields of [rec42] in the text of [card1]. *)
Lemma collect_fields_spans_witness :
  collect_fields quick card1_ocr rec42 = Ok card1_fields
  /\ (length card1_fields <= length (atomic_fields quick rec42))%nat
  /\ exists kept,
       kept `sublist_of` atomic_fields quick rec42
       /\ Forall2 (span_of_field quick card1_ocr) kept card1_fields.
Proof.
  assert (H : collect_fields quick card1_ocr rec42 = Ok card1_fields)
    by (vm_compute; reflexivity).
  exact (conj H (collect_fields_spans quick card1_ocr rec42 card1_fields H)).
Defined.

(** X5: when the search only reports windows of the OCR text and the
    resolver only returns ranges of the OCR text for such spans, every span
    that [match_candidate] returns is a range of the OCR text and carries
    the [to - from] code points of that range. *)
Theorem match_candidate_spans_in_text (E : Externals) (ocr : str)
    (db_entries : DbRecord) (printed : list str) (fields : list Field) :
  (forall pattern d matches m,
     find_near_matches E pattern ocr d = Ok matches -> m ∈ matches ->
     0 <= start m <= end_ m /\ end_ m <= Z.of_nat (length ocr)) ->
  (forall raw resolved,
     Forall (in_text ocr) raw -> correct_overlaps E raw = Ok resolved ->
     Forall (in_text ocr) resolved) ->
  match_candidate E ocr db_entries = Ok (printed, fields) ->
  Forall (fun line =>
            in_text ocr line
            /\ text line = take (Z.to_nat (to line - from line))
                                (drop (Z.to_nat (from line)) ocr)
            /\ Z.of_nat (length (text line)) = to line - from line)
         fields.
Proof.
  intros Hwindows Hresolver. unfold match_candidate.
  destruct (collect_fields E ocr db_entries) as [raw|] eqn:Hraw; simpl; [|done].
  pose proof (collect_fields_in_text _ _ _ _ Hwindows Hraw) as Hin.
  destruct (correct_overlaps E raw) as [resolved|] eqn:Hres.
  - intros [= <- <-]. specialize (Hresolver _ _ Hin Hres).
    apply Forall_fmap. eapply Forall_impl; [exact Hresolver|].
    intros span [[? ?] ?]. simpl. split_and!; try done.
    + by apply py_slice_take_drop.
    + by apply py_slice_length.
  - intros [= <- <-]. constructor.
Qed.

(** The exhaustive search of the examples only reports windows of the
    haystack. *)
Lemma exhaustive_matches_windows (pattern haystack : str) (d : Z)
    (matches : list Match) (m : Match) :
  exhaustive_matches pattern haystack d = Ok matches -> m ∈ matches ->
  0 <= start m <= end_ m /\ end_ m <= Z.of_nat (length haystack).
Proof.
  unfold exhaustive_matches. destruct pattern as [|c pattern]; [done|].
  intros Heq Hm.
  apply (f_equal (fun r => match r with Ok ms => ms | Raise _ => [] end)) in Heq.
  cbv beta iota in Heq. rewrite <- Heq in Hm. clear Heq.
  apply list_elem_of_bind in Hm as (s & Hm & Hs).
  apply list_elem_of_bind in Hm as (e & Hm & He).
  apply elem_of_seq in Hs. apply elem_of_seq in He.
  destruct (_ <=? d); [|by apply elem_of_nil in Hm].
  apply list_elem_of_singleton in Hm as ->. simpl. lia.
Qed.

(** The fields of [rec42] verified against [card1] with the exhaustive
    search and a resolver that keeps every span. *)
Lemma match_candidate_spans_in_text_witness :
  match_candidate quick card1_ocr rec42 = Ok ([], card1_fields)
  /\ Forall (fun line =>
               in_text card1_ocr line
               /\ text line = take (Z.to_nat (to line - from line))
                                   (drop (Z.to_nat (from line)) card1_ocr)
               /\ Z.of_nat (length (text line)) = to line - from line)
            card1_fields.
Proof.
  assert (H : match_candidate quick card1_ocr rec42 = Ok ([], card1_fields))
    by (vm_compute; reflexivity).
  refine (conj H (match_candidate_spans_in_text quick card1_ocr rec42 []
                    card1_fields _ _ H)).
  - intros pattern d matches m. apply exhaustive_matches_windows.
  - intros raw resolved Hraw [= <-]. exact Hraw.
Defined.

(** ** The candidates of a card *)

Lemma fetch_records_length (txn_bib : gmap (list N) DbRecord)
    (results : list Hit) (records : list DbRecord) :
  fetch_records txn_bib results = Ok records -> length records = length results.
Proof.
  unfold fetch_records.
  assert (Hgen : forall acc, for_each (fun records r =>
              document ← fetch_record txn_bib r; Ok (records ++ [document]))
            acc results = Ok records ->
          length records = (length acc + length results)%nat).
  { induction results as [|r results IH]; intros acc; simpl.
    - intros [= <-]. lia.
    - destruct (fetch_record txn_bib r) as [document|]; simpl; [|done].
      intros ->%IH. rewrite length_app. simpl. lia. }
  intros H%Hgen. done.
Qed.

(** With a search library that raises nothing but [ValueError], the
    verification of a candidate returns. *)
Lemma match_candidate_returns (E : Externals) (ocr : str) (db_entries : DbRecord) :
  (forall pattern haystack d e,
     find_near_matches E pattern haystack d = Raise e -> e = ValueError) ->
  exists out, match_candidate E ocr db_entries = Ok out.
Proof.
  intros Honly.
  assert (Hfield : forall fields item, exists fields',
            match_field E ocr fields item = Ok fields').
  { intros fields [label text]. unfold match_field, find_best.
    destruct (find_near_matches E text ocr (get_max_dist text)) as [ms|e] eqn:Hf.
    - simpl. destruct (lowest_match ms); eauto.
    - rewrite (Honly _ _ _ _ Hf). simpl. eauto. }
  assert (Hinner : forall items fields, exists fields',
            for_each (match_field E ocr) fields items = Ok fields').
  { induction items as [|item items IH]; intros fields; simpl; [eauto|].
    destruct (Hfield fields item) as [fields1 ->]. simpl. apply IH. }
  assert (Houter : forall db fields, exists fields',
            for_each (fun fields '(raw_label, raw_text) =>
                        for_each (match_field E ocr) fields
                                 (generate_db_records E raw_label raw_text))
                     fields db = Ok fields').
  { induction db as [|[raw_label raw_text] db IH]; intros fields; simpl; [eauto|].
    destruct (Hinner (generate_db_records E raw_label raw_text) fields)
      as [fields1 ->]. simpl. apply IH. }
  unfold match_candidate, collect_fields.
  destruct (Houter db_entries []) as [raw ->]. simpl.
  destruct (correct_overlaps E raw); eauto.
Qed.

Lemma verify_all_returns (E : Externals) (ocr : str) (records : list DbRecord) :
  (forall pattern haystack d e,
     find_near_matches E pattern haystack d = Raise e -> e = ValueError) ->
  exists printed matches,
    verify_all E ocr records = Ok (printed, matches)
    /\ length matches = length records.
Proof.
  intros Honly.
  assert (Houts : exists outs,
            Forall2 (fun r out => match_candidate E ocr r = Ok out) records outs).
  { induction records as [|r records [outs IH]]; [by exists []|].
    destruct (match_candidate_returns E ocr r Honly) as [out Hout].
    exists (out :: outs). by constructor. }
  destruct Houts as [outs Houts].
  exists (concat (fst <$> outs)), (snd <$> outs). split.
  - apply verify_all_outs. by exists outs.
  - rewrite length_fmap. symmetry. by eapply Forall2_length.
Qed.

Lemma select_returns (min_matched_lines : Z) (file_path : str)
    (results : list Hit) (matches : list (list Field)) :
  matches ≠ [] -> length results = length matches ->
  exists chosen, select min_matched_lines file_path results matches = Ok chosen.
Proof.
  intros Hne Hlen. unfold select, index.
  destruct (_ <=? _); [|eauto].
  assert (Hscores : match_scores matches ≠ []).
  { unfold match_scores. by destruct matches. }
  destruct (argmax_first_max _ Hscores) as [Hat _].
  apply match_scores_lookup in Hat as (fields & Hfields & _).
  rewrite Hfields.
  destruct (results !! argmax (match_scores matches)) as [hit|] eqn:Hhit.
  - simpl. eauto.
  - apply lookup_ge_None in Hhit. apply lookup_lt_Some in Hfields. lia.
Qed.

(** ** The end of [main] *)

(** X7: the window is empty exactly when the index drawn is not below the
    number of lines; then no card is counted and [main] raises
    [ZeroDivisionError] where it prints the time per card, before anything
    is saved.  With a card in the window, [main] saves the two outputs of
    the loop whenever the loop returns. *)
Theorem main_needs_a_card (E : Externals) (min_matched_lines : Z)
    (txn_ocr : gmap (list N) str) (txn_bib : gmap (list N) DbRecord)
    (all_lines : list str) (idx : Z) :
  0 <= idx ->
  (window all_lines idx = [] <-> Z.of_nat (length all_lines) <= idx)
  /\ (window all_lines idx = [] ->
      main E min_matched_lines txn_ocr txn_bib all_lines idx
      = Raise ZeroDivisionError)
  /\ (forall st,
        window all_lines idx ≠ [] ->
        run_loop E min_matched_lines txn_ocr txn_bib all_lines idx = Ok st ->
        main E min_matched_lines txn_ocr txn_bib all_lines idx
        = Ok (mkSaved (alignment_output st) (matching_output st))).
Proof.
  intros Hidx. split_and!.
  - rewrite window_take_drop by done. split.
    + intros Hnil%(f_equal length).
      rewrite length_take, length_drop in Hnil. cbn [length] in Hnil. lia.
    + intros Hlen. rewrite drop_ge by lia. done.
  - intros Hnil. unfold main, run_loop. by rewrite Hnil.
  - intros st Hne Hloop. unfold main. rewrite Hloop. simpl.
    unfold run_loop in Hloop. apply for_each_process_card_counts in Hloop.
    simpl in Hloop.
    destruct (Z.eqb_spec (nb_cards_searched st) 0) as [Hz|]; [|done].
    destruct (window all_lines idx); [done | simpl in Hloop; lia].
Qed.

(** A file of one line read from index 5. *)
Lemma main_needs_a_card_witness :
  0 <= 5
  /\ window [card1_line] 5 = []
  /\ main quick 2 ocr_store bib_store [card1_line] 5 = Raise ZeroDivisionError.
Proof.
  assert (H0 : 0 <= 5) by lia.
  assert (H1 : window [card1_line] 5 = []) by reflexivity.
  pose proof (main_needs_a_card quick 2 ocr_store bib_store [card1_line] 5 H0)
    as (_ & Hraise & _).
  exact (conj H0 (conj H1 (Hraise H1))).
Defined.

(** ** Queries without terms *)

Lemma bind_nil_iff {A B : Type} (f : A -> list B) (l : list A) :
  l ≫= f = [] <-> forall x, x ∈ l -> f x = [].
Proof.
  induction l as [|x l IH].
  - split; [intros _ y Hy; by apply elem_of_nil in Hy | done].
  - rewrite bind_cons. split.
    + intros [Hx Hl]%app_eq_nil y [-> | Hy]%elem_of_cons; [done|].
      by apply IH.
    + intros Hall. rewrite (Hall x) by (by left). simpl.
      apply IH. intros y Hy. apply Hall. by right.
Qed.

(** X8: the query has no term at all exactly when no token of any text of the
    alignments is longer than 3. *)
Theorem build_query_empty_iff (E : Externals) (alignments : Alignments) :
  build_query E alignments = Or []
  <-> forall label texts text word,
        (label, texts) ∈ alignments -> text ∈ texts -> word ∈ split text ->
        (length word <= 3)%nat.
Proof.
  unfold build_query. rewrite fuzzy_terms_of_spec. unfold spec_terms. split.
  - intros [= Hnil] label texts text word Hin Htext Hword.
    rewrite bind_nil_iff in Hnil. specialize (Hnil _ Hin). simpl in Hnil.
    rewrite bind_nil_iff in Hnil. specialize (Hnil _ Htext).
    rewrite bind_nil_iff in Hnil.
    destruct (decide (length word <= 3)%nat) as [|Hlong]; [done|].
    specialize (Hnil word). rewrite list_elem_of_filter in Hnil.
    specialize (Hnil (conj Hlong Hword)).
    unfold spec_fields in Hnil. by destruct (decide (label = Author)).
  - intros Hshort. f_equal. apply bind_nil_iff. intros [label texts] Hin.
    apply bind_nil_iff. intros text Htext.
    apply bind_nil_iff. intros word [Hlong Hword]%list_elem_of_filter.
    by specialize (Hshort _ _ _ _ Hin Htext Hword).
Qed.

(** A card whose only text is a year of three digits and an article. *)
Lemma build_query_empty_iff_witness :
  build_query quick [(lit "Date", [lit "985 the"])] = Or [].
Proof.
  apply (build_query_empty_iff quick [(lit "Date", [lit "985 the"])]).
  intros label texts text word Hin Htext Hword.
  apply list_elem_of_singleton in Hin. injection Hin as -> ->.
  apply list_elem_of_singleton in Htext as ->.
  apply elem_of_cons in Hword as [-> | Hword]; [simpl; lia|].
  apply list_elem_of_singleton in Hword as ->. simpl. lia.
Defined.

(** ** What the loop keeps from card to card *)

Lemma print_all_fields (lines : list str) (st : Run) :
  fold_left print lines st
  = mkRun (nb_cards_searched st) (matching_output st) (alignment_output st)
          (stdout st ++ lines) (searches st).
Proof.
  revert st. induction lines as [|l lines IH]; intros st; simpl.
  - rewrite app_nil_r. by destruct st.
  - rewrite IH. simpl. by rewrite <- app_assoc.
Qed.

Lemma process_card_appends (E : Externals) (min_matched_lines : Z)
    (txn_ocr : gmap (list N) str) (txn_bib : gmap (list N) DbRecord)
    (st st' : Run) (line : str) :
  process_card E min_matched_lines txn_ocr txn_bib st line = Ok st' ->
  searches st' = S (searches st)
  /\ matching_output st `prefix_of` matching_output st'
  /\ alignment_output st `prefix_of` alignment_output st'
  /\ stdout st `prefix_of` stdout st'.
Proof.
  unfold process_card.
  destruct (load_ocr _ _) as [ocr|]; simpl; [|done].
  destruct (parse_alignments _ _ _) as [parsed|]; simpl; [|done].
  destruct (search_phrase _ _ _ _) as [results|[]]; simpl; try done.
  - destruct (fetch_records _ _) as [records|]; simpl; [|done].
    destruct (verify_all _ _ _) as [[printed matches]|]; simpl; [|done].
    rewrite print_all_fields. simpl.
    destruct matches as [|fields matches].
    + intros [= <-]. simpl. split_and!; try done.
      rewrite <- !app_assoc. by apply prefix_app_r.
    + destruct (select _ _ _ _) as [[m|]|]; simpl; [| |done].
      * intros [= <-]. simpl. split_and!; try done;
          try (by apply prefix_app_r).
        rewrite <- !app_assoc. by apply prefix_app_r.
      * intros [= <-]. simpl. split_and!; try done.
        rewrite <- !app_assoc. by apply prefix_app_r.
  - intros [= <-]. simpl. split_and!; try done.
    rewrite <- !app_assoc. by apply prefix_app_r.
Qed.

(** X9: over any lines that the loop gets through, one index search is
    issued and one card counted per line, and the two outputs and the
    printed lines only grow: what was there stays in front. *)
Theorem loop_only_appends (E : Externals) (min_matched_lines : Z)
    (txn_ocr : gmap (list N) str) (txn_bib : gmap (list N) DbRecord)
    (lines : list str) (st st' : Run) :
  for_each (process_card E min_matched_lines txn_ocr txn_bib) st lines = Ok st' ->
  searches st' = (searches st + length lines)%nat
  /\ nb_cards_searched st' = nb_cards_searched st + Z.of_nat (length lines)
  /\ matching_output st `prefix_of` matching_output st'
  /\ alignment_output st `prefix_of` alignment_output st'
  /\ stdout st `prefix_of` stdout st'.
Proof.
  intros Hloop. split_and!; [| by eapply for_each_process_card_counts | | |];
    revert st Hloop; induction lines as [|line lines IH]; intros st; simpl;
    try (intros [= <-]; done || lia);
    (destruct (process_card _ _ _ _ st line) as [st1|] eqn:H1; simpl; [|done]);
    intros Hrest; specialize (IH _ Hrest);
    apply process_card_appends in H1 as (Hs & Hm & Ha & Ho).
  - lia.
  - by etrans.
  - by etrans.
  - by etrans.
Qed.

(** The line of [card1] twice. *)
Lemma loop_only_appends_witness :
  exists st',
    for_each (process_card quick 2 ocr_store bib_store) initial_run
             [card1_line; card1_line] = Ok st'
    /\ searches st' = (searches initial_run + length [card1_line; card1_line])%nat
    /\ nb_cards_searched st'
       = nb_cards_searched initial_run + Z.of_nat (length [card1_line; card1_line]).
Proof.
  eexists. split; [vm_compute; reflexivity|].
  match goal with
  | |- searches ?s = _ /\ _ =>
      pose proof (loop_only_appends quick 2 ocr_store bib_store
                    [card1_line; card1_line] initial_run s) as H
  end.
  destruct H as (Hs & Hn & _); [vm_compute; reflexivity|].
  exact (conj Hs Hn).
Defined.

(** * The NER helper *)

(** ** Loading OCR text *)

Lemma fold_replace_char (table : list (N * N)) (text : str) :
  fold_left (fun text '(to_replace, replace_with) =>
               replace_char to_replace replace_with text) table text
  = replaced table <$> text.
Proof.
  revert text. induction table as [|[a b] table IH]; intros text; simpl.
  - by rewrite list_fmap_id.
  - rewrite IH. unfold replace_char. rewrite <- list_fmap_compose.
    by apply list_fmap_ext.
Qed.

Lemma fold_remove_char (removed : list N) (text : list N) :
  fold_left (fun text to_remove => remove_char to_remove text) removed text
  = filter (fun c => c ∉ removed) text.
Proof.
  revert text. induction removed as [|a removed IH]; intros text;
    cbn [fold_left].
  - induction text as [|c text IHt]; [done|].
    rewrite filter_cons_True; [by f_equal | apply not_elem_of_nil].
  - rewrite IH. unfold remove_char, str. rewrite list_filter_filter.
    apply list_filter_iff. intros c. rewrite not_elem_of_cons. tauto.
Qed.

(** The text that [load_ocr] returns for a stored text. *)
Lemma load_ocr_stored (path : str) (txn : gmap (list N) str) (raw : list N) :
  txn !! path = Some raw ->
  load_ocr path txn
  = Ok (filter (fun c => c ∉ TRUNCATED_CHARS) (replaced UNKNOWN_CHARS <$> raw)).
Proof.
  intros Hraw. unfold load_ocr, str in *. rewrite Hraw.
  by rewrite fold_replace_char, fold_remove_char.
Qed.

Lemma replaced_cons (a b : N) (table : list (N * N)) (c : N) :
  replaced ((a, b) :: table) c = replaced table (if N.eqb c a then b else c).
Proof. done. Qed.

(** A code point goes through a table unchanged when it is no key, and
    otherwise ends as one of the values. *)
Lemma replaced_cases (table : list (N * N)) (c : N) :
  (replaced table c = c /\ (c ∉ (fst <$> table)))
  \/ replaced table c ∈ (snd <$> table).
Proof.
  revert c. induction table as [|[a b] table IH]; intros c.
  - left. split; [done | apply not_elem_of_nil].
  - rewrite replaced_cons, !fmap_cons. cbn [fst snd].
    destruct (N.eqb_spec c a) as [->|Hne].
    + right. destruct (IH b) as [[-> _] | Hin]; [by left | by right].
    + destruct (IH c) as [[Heq Hnot] | Hin]; [left | right; by right].
      split; [done|]. intros [?|?]%elem_of_cons; done.
Qed.

Lemma replaced_not_key (table : list (N * N)) (c : N) :
  c ∉ (fst <$> table) -> replaced table c = c.
Proof.
  induction table as [|[a b] table IH]; [done|].
  rewrite fmap_cons. cbn [fst]. intros [Hne Hnot]%not_elem_of_cons.
  rewrite replaced_cons.
  destruct (N.eqb_spec c a); [done | by apply IH].
Qed.

(** No replacement of [UNKNOWN_CHARS] is itself replaced or removed, and no
    removed code point is replaced. *)
Lemma UNKNOWN_CHARS_values :
  Forall (fun v => (v ∉ (fst <$> UNKNOWN_CHARS)) /\ (v ∉ TRUNCATED_CHARS))
         (snd <$> UNKNOWN_CHARS).
Proof. refine (bool_decide_unpack _ _). vm_compute. exact I. Qed.

Lemma TRUNCATED_CHARS_no_keys :
  Forall (fun c => c ∉ (fst <$> UNKNOWN_CHARS)) TRUNCATED_CHARS.
Proof. refine (bool_decide_unpack _ _). vm_compute. exact I. Qed.

Lemma replaced_clean (c : N) :
  (replaced UNKNOWN_CHARS c ∉ (fst <$> UNKNOWN_CHARS))
  /\ (replaced UNKNOWN_CHARS c ∈ TRUNCATED_CHARS <-> c ∈ TRUNCATED_CHARS).
Proof.
  pose proof UNKNOWN_CHARS_values as Hvalues.
  pose proof TRUNCATED_CHARS_no_keys as Hkeys.
  rewrite Forall_forall in Hvalues. rewrite Forall_forall in Hkeys.
  destruct (replaced_cases UNKNOWN_CHARS c) as [[Heq Hnot] | Hin].
  - rewrite Heq. done.
  - destruct (Hvalues _ Hin) as [Hk Ht]. split; [done|]. split; [done|].
    intros Hc. specialize (Hkeys _ Hc).
    rewrite (replaced_not_key _ _ Hkeys) in Ht. done.
Qed.

(** What [load_ocr] returns went through both tables. *)
Lemma load_ocr_result_clean (path : str) (txn : gmap (list N) str) (text : list N) :
  load_ocr path txn = Ok text ->
  Forall (fun c => (c ∉ (fst <$> UNKNOWN_CHARS)) /\ (c ∉ TRUNCATED_CHARS)) text.
Proof.
  destruct (txn !! path) as [raw|] eqn:Hraw.
  2: { unfold load_ocr. by rewrite Hraw. }
  rewrite (load_ocr_stored _ _ _ Hraw). intros [= <-].
  apply Forall_forall. intros c [Hc Hin]%list_elem_of_filter.
  apply list_elem_of_fmap in Hin as (c0 & -> & _).
  split; [apply replaced_clean | done].
Qed.

(** X10: the text that [load_ocr] returns contains none of the code points
    that [UNKNOWN_CHARS] replaces and none that [TRUNCATED_CHARS] removes. *)
Theorem load_ocr_clean (path : str) (txn : gmap (list N) str) (text : list N) :
  load_ocr path txn = Ok text ->
  Forall (fun c => (c ∉ (fst <$> UNKNOWN_CHARS)) /\ (c ∉ TRUNCATED_CHARS)) text.
Proof.
  destruct (txn !! path) as [raw|] eqn:Hraw.
  2: { unfold load_ocr. by rewrite Hraw. }
  rewrite (load_ocr_stored _ _ _ Hraw). intros [= <-].
  apply Forall_forall. intros c [Hc Hin]%list_elem_of_filter.
  apply list_elem_of_fmap in Hin as (c0 & -> & _).
  split; [apply replaced_clean | done].
Qed.

(** A card with a long dash, a reversed quotation mark and a combining
    macron. *)
Lemma load_ocr_clean_witness :
  load_ocr (lit "c") {[ lit "c" := [8212; 97; 772; 8216]%N ]} = Ok [45; 97; JOKER]%N
  /\ Forall (fun c => (c ∉ (fst <$> UNKNOWN_CHARS)) /\ (c ∉ TRUNCATED_CHARS))
            [45; 97; JOKER]%N.
Proof.
  assert (H : load_ocr (lit "c") {[ lit "c" := [8212; 97; 772; 8216]%N ]}
              = Ok [45; 97; JOKER]%N) by (vm_compute; reflexivity).
  exact (conj H (load_ocr_clean _ _ _ H)).
Defined.

(** X11: loading is idempotent: a text that [load_ocr] returned, stored and
    loaded again, comes back as it is. *)
Theorem load_ocr_idempotent (path : str) (txn : gmap (list N) str) (text : list N) :
  load_ocr path txn = Ok text ->
  load_ocr path (<[path := text]> txn) = Ok text.
Proof.
  intros Hclean%load_ocr_result_clean.
  rewrite (load_ocr_stored _ _ text) by apply lookup_insert_eq. f_equal.
  induction Hclean as [|c text [Hkey Htrunc] Hclean IH]; [done|].
  rewrite fmap_cons, (replaced_not_key _ _ Hkey).
  rewrite filter_cons_True by done. by f_equal.
Qed.

Lemma load_ocr_idempotent_witness :
  load_ocr (lit "c") {[ lit "c" := [8212; 97; 772; 8216]%N ]} = Ok [45; 97; JOKER]%N
  /\ load_ocr (lit "c")
       (<[lit "c" := [45; 97; JOKER]%N]> {[ lit "c" := [8212; 97; 772; 8216]%N ]})
     = Ok [45; 97; JOKER]%N.
Proof.
  assert (H : load_ocr (lit "c") {[ lit "c" := [8212; 97; 772; 8216]%N ]}
              = Ok [45; 97; JOKER]%N) by (vm_compute; reflexivity).
  exact (conj H (load_ocr_idempotent _ _ _ H)).
Defined.

Lemma length_filter_fmap {A B : Type} (P : B -> Prop) `{!forall x, Decision (P x)}
    (Q : A -> Prop) `{!forall x, Decision (Q x)} (f : A -> B) (l : list A) :
  (forall x, P (f x) <-> Q x) ->
  length (filter P (f <$> l)) = length (filter Q l).
Proof.
  intros HPQ. induction l as [|x l IH]; [done|].
  rewrite fmap_cons. destruct (decide (Q x)) as [Hq|Hq].
  - rewrite !filter_cons_True by (done || by apply HPQ). simpl. by rewrite IH.
  - rewrite !filter_cons_False by (done || by rewrite HPQ). done.
Qed.

(** X12: the text that [load_ocr] returns is the stored text without its
    code points of [TRUNCATED_CHARS], each of the others standing at its
    place or replaced by one code point: the length drops by the number of
    removed code points and by nothing else. *)
Theorem load_ocr_length (path : str) (txn : gmap (list N) str) (raw text : list N) :
  txn !! path = Some raw ->
  load_ocr path txn = Ok text ->
  length text = length (filter (fun c => c ∉ TRUNCATED_CHARS) raw)
  /\ (length text <= length raw)%nat
  /\ (Forall (fun c => c ∉ TRUNCATED_CHARS) raw ->
      text = replaced UNKNOWN_CHARS <$> raw).
Proof.
  intros Hraw. rewrite (load_ocr_stored _ _ _ Hraw). intros [= <-].
  assert (Hlen : length (filter (fun c => c ∉ TRUNCATED_CHARS)
                                (replaced UNKNOWN_CHARS <$> raw))
                 = length (filter (fun c => c ∉ TRUNCATED_CHARS) raw)).
  { apply length_filter_fmap. intros c.
    destruct (replaced_clean c) as [_ Hiff]. by rewrite Hiff. }
  split_and!; [done | |].
  - rewrite Hlen. apply length_filter.
  - clear. induction 1 as [|c raw' Hc Hnone IH]; [done|].
    rewrite fmap_cons, filter_cons_True.
    + by f_equal.
    + by rewrite (proj2 (replaced_clean c)).
Qed.

Lemma load_ocr_length_witness :
  ({[ lit "c" := [8212; 97; 772; 8216]%N ]} : gmap (list N) str) !! lit "c"
  = Some [8212; 97; 772; 8216]%N
  /\ load_ocr (lit "c") {[ lit "c" := [8212; 97; 772; 8216]%N ]} = Ok [45; 97; JOKER]%N
  /\ length [45; 97; JOKER]%N
     = length (filter (fun c => c ∉ TRUNCATED_CHARS) [8212; 97; 772; 8216]%N).
Proof.
  assert (H0 : ({[ lit "c" := [8212; 97; 772; 8216]%N ]} : gmap (list N) str)
               !! lit "c" = Some [8212; 97; 772; 8216]%N)
    by (vm_compute; reflexivity).
  assert (H : load_ocr (lit "c") {[ lit "c" := [8212; 97; 772; 8216]%N ]}
              = Ok [45; 97; JOKER]%N) by (vm_compute; reflexivity).
  exact (conj H0 (conj H (proj1 (load_ocr_length _ _ _ _ H0 H)))).
Defined.

(** ** Line separator tokens *)

Lemma add_line_separator_token_cons (c : N) (text : list N) :
  NER.add_line_separator_token (c :: text)
  = (if N.eqb c LF then [SPACE] ++ NER.LINE_SEPARATOR ++ [SPACE] else [c])
    ++ NER.add_line_separator_token text.
Proof. done. Qed.

Lemma add_line_separator_token_app (text1 text2 : list N) :
  NER.add_line_separator_token (text1 ++ text2)
  = NER.add_line_separator_token text1 ++ NER.add_line_separator_token text2.
Proof. unfold NER.add_line_separator_token, NER.replace_with. apply bind_app. Qed.

(** X13: [add_line_separator_token] leaves no line feed in the text and
    lengthens it by five code points for each line feed it had. *)
Theorem add_line_separator_token_length (text : list N) :
  (LF ∉ NER.add_line_separator_token text)
  /\ length (NER.add_line_separator_token text)
     = (length text + 5 * length (filter (fun c => c = LF) text))%nat.
Proof.
  induction text as [|c text [IHno IHlen]].
  - split; [apply not_elem_of_nil | done].
  - rewrite add_line_separator_token_cons.
    destruct (N.eqb_spec c LF) as [->|Hne].
    + split.
      * rewrite !elem_of_app. intros [[H|[H|H]]|H]; [| | |done];
          vm_compute in H; by repeat (apply elem_of_cons in H as [H|H]; [done|]);
          apply elem_of_nil in H.
      * rewrite filter_cons_True by done. rewrite !length_app, IHlen.
        cbn [length]. change (length NER.LINE_SEPARATOR) with 4%nat. lia.
    + split.
      * rewrite elem_of_app, list_elem_of_singleton. intros [?|?]; done.
      * rewrite filter_cons_False by done. rewrite length_app, IHlen.
        cbn [length]. lia.
Qed.

(** A whitespace code point ends the token being read. *)
Lemma split_go_app_space (cur a : list N) (c : N) (b : list N) :
  isspace c = true ->
  split_go cur (a ++ c :: b) = split_go cur a ++ split b.
Proof.
  intros Hc. revert cur. induction a as [|x a IH]; intros cur; simpl.
  - rewrite Hc. by destruct cur.
  - destruct (isspace x).
    + destruct cur; [apply IH | simpl; f_equal; apply IH].
    + apply IH.
Qed.

Lemma add_line_separator_token_id (line : list N) :
  LF ∉ line -> NER.add_line_separator_token line = line.
Proof.
  induction line as [|c line IH]; [done|].
  intros [Hne Hline]%not_elem_of_cons. rewrite add_line_separator_token_cons.
  destruct (N.eqb_spec c LF); [done|]. simpl. by rewrite IH.
Qed.

(** X14: splitting a text after [add_line_separator_token] gives the tokens
    of its first line, then the token [[LF]], then the tokens of the rest
    treated the same way; a text of one line gives its own tokens. *)
Theorem add_line_separator_token_split (line rest : list N) :
  LF ∉ line ->
  split (NER.add_line_separator_token line) = split line
  /\ split (NER.add_line_separator_token (line ++ LF :: rest))
     = split line ++ NER.LINE_SEPARATOR :: split (NER.add_line_separator_token rest).
Proof.
  intros Hline. split; [by rewrite add_line_separator_token_id|].
  rewrite add_line_separator_token_app, add_line_separator_token_cons.
  rewrite (add_line_separator_token_id line Hline).
  rewrite N.eqb_refl.
  change (([SPACE] ++ NER.LINE_SEPARATOR ++ [SPACE])
          ++ NER.add_line_separator_token rest)
    with (SPACE :: (NER.LINE_SEPARATOR
                    ++ SPACE :: NER.add_line_separator_token rest)).
  unfold split at 1. rewrite split_go_app_space by done.
  change (split_go [] line) with (split line). f_equal.
Qed.

(** Two lines of a card. *)
Lemma add_line_separator_token_split_witness :
  (LF ∉ lit "William Shakespeae")
  /\ split (NER.add_line_separator_token
              (lit "William Shakespeae" ++ LF :: lit "Hamlet 1603"))
     = [lit "William"; lit "Shakespeae"; lit "[LF]"; lit "Hamlet"; lit "1603"].
Proof.
  assert (H : LF ∉ lit "William Shakespeae").
  { refine (bool_decide_unpack _ _). vm_compute. exact I. }
  split; [exact H|].
  rewrite (proj2 (add_line_separator_token_split (lit "William Shakespeae")
                    (lit "Hamlet 1603") H)).
  vm_compute. reflexivity.
Defined.

(** ** Model configurations *)

Lemma dict_get_elem_of {K V : Type} `{EqDecision K} (d : list (K * V)) (k : K) (v : V) :
  NoDup (fst <$> d) -> NER.dict_get d k = Some v <-> (k, v) ∈ d.
Proof.
  induction d as [|[k' v'] d IH]; cbn [NER.dict_get].
  - intros _. split; [done | intros H; by apply elem_of_nil in H].
  - rewrite fmap_cons. cbn [fst]. intros [Hnot Hnodup]%NoDup_cons.
    destruct (decide (k' = k)) as [->|Hne].
    + split.
      * intros [= ->]. by left.
      * intros [[= ->] | Hin]%elem_of_cons; [done|].
        destruct Hnot. apply list_elem_of_fmap. by exists (k, v).
    + rewrite (IH Hnodup). split; [by right|].
      intros [[= -> ->] | Hin]%elem_of_cons; done.
Qed.

(** A dict with distinct keys and distinct values, and the dict of its
    swapped items: looking up a key in one is looking up its value in the
    other. *)
Lemma dict_get_swap {K V : Type} `{EqDecision K, EqDecision V}
    (d : list (K * V)) (k : K) (v : V) :
  NoDup (fst <$> d) -> NoDup (snd <$> d) ->
  NER.dict_get d k = Some v
  <-> NER.dict_get ((fun '(k, v) => (v, k)) <$> d) v = Some k.
Proof.
  intros Hk Hv. rewrite (dict_get_elem_of d k v Hk).
  rewrite dict_get_elem_of.
  - rewrite list_elem_of_fmap. split.
    + intros Hin. by exists (k, v).
    + intros ([k' v'] & [= -> ->] & Hin). done.
  - assert (Heq : fst <$> ((fun '(k, v) => (v, k)) <$> d) = snd <$> d).
    { rewrite <- list_fmap_compose. apply list_fmap_ext. by intros i [? ?] _. }
    by rewrite Heq.
Qed.

(** The numbering that [get_labels2ids] gives for either list of labels and
    either format, with ["O"] added as 0. *)
Lemma labels2ids_facts (upper : str -> str) (ls : list str) (format : str)
    (d : list (str * Z)) :
  upper (lit "iob") = lit "IOB" ->
  upper (lit "io") = lit "IO" ->
  ls = NER.ALL_LABELS \/ ls = NER.SUBSET_LABELS ->
  NER.get_labels2ids ls format = Some d ->
  let d' := NER.dict_set d NER.O 0 in
  let n := Z.of_nat (length ls)
           * Z.of_nat (length (filter (fun tag => tag ≠ lit "O")
                                      (NER.get_format upper format))) + 1 in
  n = Z.of_nat (length d')
  /\ NoDup (fst <$> d')
  /\ NoDup (snd <$> d')
  /\ Forall (fun i => 0 <= i < n) (snd <$> d')
  /\ Forall (fun i => i ∈ (snd <$> d')) (seqZ 0 n)
  /\ NER.dict_of ((fun '(k, v) => (v, k)) <$> d') = (fun '(k, v) => (v, k)) <$> d'
  /\ NER.dict_get d' NER.O = Some 0.
Proof.
  intros Hiob Hio Hls. unfold NER.get_labels2ids, NER.get_format.
  destruct (decide (format = lit "iob")) as [->|Hf1];
    [|destruct (decide (format = lit "io")) as [->|Hf2]; [|done]];
    intros [= <-]; rewrite ?Hiob, ?Hio; destruct Hls as [-> | ->];
    cbv zeta; split_and!;
    first [ vm_compute; reflexivity
          | refine (bool_decide_unpack _ _); vm_compute; exact I ].
Qed.

(** X15: every configuration that the constructor returns has one of the two
    label lists, [min_aligned] between 1 and the number of labels,
    [must_align] among the labels, and a [labels2ids] that is a one-to-one
    numbering of its keys by [0 .. num_labels - 1] with ["O"] as 0, of which
    [ids2labels] is the inverse. *)
Theorem init_invariants (upper : str -> str) (labels format : str) (max_len : Z)
    (sep sep_loss : bool) (must_align : list str) (min_aligned : Z)
    (cfg : NER.ModelConfig) :
  upper (lit "iob") = lit "IOB" ->
  upper (lit "io") = lit "IO" ->
  NER.init upper labels format max_len sep sep_loss must_align min_aligned = Ok cfg ->
  (NER.labels cfg = NER.ALL_LABELS \/ NER.labels cfg = NER.SUBSET_LABELS)
  /\ 1 <= NER.min_aligned cfg <= Z.of_nat (length (NER.labels cfg))
  /\ NER.must_align cfg ⊆ NER.labels cfg
  /\ NER.num_labels cfg = Z.of_nat (length (NER.labels2ids cfg))
  /\ NoDup (fst <$> NER.labels2ids cfg)
  /\ NoDup (snd <$> NER.labels2ids cfg)
  /\ (forall i : Z, i ∈ (snd <$> NER.labels2ids cfg) <-> 0 <= i < NER.num_labels cfg)
  /\ NER.dict_get (NER.labels2ids cfg) NER.O = Some 0
  /\ forall (k : str) (i : Z),
       NER.dict_get (NER.labels2ids cfg) k = Some i
       <-> NER.dict_get (NER.ids2labels cfg) i = Some k.
Proof.
  intros Hiob Hio Hinit. unfold NER.init in Hinit.
  destruct (NER.get_labels labels) as [ls|] eqn:Hls; [|done].
  destruct (NER.get_labels2ids ls format) as [d|] eqn:Hd; [|done].
  destruct (Z.ltb_spec (Z.of_nat (length ls)) min_aligned) as [|Hhi]; [done|].
  destruct (Z.ltb_spec min_aligned 1) as [|Hlo]; [done|].
  case_bool_decide as Hsubset; [|done].
  injection Hinit as <-.
  cbn [NER.labels NER.min_aligned NER.must_align NER.num_labels
       NER.labels2ids NER.ids2labels].
  assert (Hcases : ls = NER.ALL_LABELS \/ ls = NER.SUBSET_LABELS).
  { unfold NER.get_labels in Hls. repeat case_decide; simplify_eq; auto. }
  destruct (labels2ids_facts upper ls format d Hiob Hio Hcases Hd)
    as (Hn & Hk & Hv & Hrange & Hall & Hinv & HO).
  split_and!; try done; try lia.
  - intros i. split.
    + intros Hi. by apply (proj1 (Forall_forall _ _) Hrange).
    + intros Hi. apply (proj1 (Forall_forall _ _) Hall).
      apply elem_of_seqZ. lia.
  - intros k i.
    pose proof (dict_get_swap (NER.dict_set d NER.O 0) k i Hk Hv) as Hswap.
    etrans; [exact Hswap|].
    apply (eq_ind_r (fun items => NER.dict_get _ i = Some k
                                  <-> NER.dict_get items i = Some k)
                    (reflexivity _) Hinv).
Qed.

(** The default configuration, [ModelConfig()]: all 16 labels in the format
    [iob], 33 numbered labels. *)
Lemma init_invariants_witness :
  ascii_upper (lit "iob") = lit "IOB"
  /\ ascii_upper (lit "io") = lit "IO"
  /\ exists cfg,
       NER.init ascii_upper (lit "all") (lit "iob") 256 true false [] 1 = Ok cfg
       /\ NER.num_labels cfg = 33
       /\ NER.num_labels cfg = Z.of_nat (length (NER.labels2ids cfg))
       /\ NER.dict_get (NER.labels2ids cfg) NER.O = Some 0.
Proof.
  assert (H1 : ascii_upper (lit "iob") = lit "IOB") by reflexivity.
  assert (H2 : ascii_upper (lit "io") = lit "IO") by reflexivity.
  split; [exact H1|]. split; [exact H2|].
  eexists. split; [vm_compute; reflexivity|].
  split; [reflexivity|].
  match goal with
  | |- NER.num_labels ?config = _ /\ _ =>
      pose proof (init_invariants ascii_upper (lit "all") (lit "iob") 256 true
                    false [] 1 config H1 H2) as H
  end.
  destruct H as (_ & _ & _ & Hn & _ & _ & _ & HO & _);
    [vm_compute; reflexivity|].
  exact (conj Hn HO).
Defined.

(** ** Token labels *)

(** The tokens of a text are not empty, hold no whitespace, and hold only
    code points of the text. *)
Lemma tokens_elem (s : list N) (ts : list (list N)) :
  tokens s ts ->
  Forall (fun t => t ≠ [] /\ Forall (fun c => isspace c = false) t
                   /\ forall c, c ∈ t -> c ∈ s) ts.
Proof.
  induction 1 as [blank Hb | blank word rest ts Hb Hw Hns Hrest Hts IH].
  - constructor.
  - constructor.
    + split_and!; [done | done |]. intros c Hc.
      rewrite !elem_of_app. auto.
    + eapply Forall_impl; [exact IH|]. intros t (? & ? & Hin).
      split_and!; [done | done |]. intros c Hc.
      rewrite !elem_of_app. auto.
Qed.

Lemma split_elem (s : list N) :
  Forall (fun t => t ≠ [] /\ Forall (fun c => isspace c = false) t
                   /\ forall c, c ∈ t -> c ∈ s) (split s).
Proof. apply tokens_elem, split_tokens. Qed.

(** Splitting loses the whitespace and nothing else. *)
Lemma split_go_concat (cur s : list N) :
  concat (split_go cur s) = cur ++ filter (fun c => isspace c = false) s.
Proof.
  revert cur. induction s as [|c s IH]; intros cur.
  - simpl. destruct cur; simpl; by rewrite ?app_nil_r.
  - cbn [split_go]. destruct (isspace c) eqn:Hc.
    + rewrite filter_cons_False by (by rewrite Hc).
      destruct cur as [|x cur]; [apply IH|].
      cbn [concat]. by rewrite IH.
    + rewrite filter_cons_True by done. rewrite IH. by rewrite <- app_assoc.
Qed.

Lemma split_concat (s : list N) :
  concat (split s) = filter (fun c => isspace c = false) s.
Proof. apply (split_go_concat [] s). Qed.

Lemma length_pad_labels (tokens labels : list (list N)) (x : list N) :
  (length labels <= length tokens)%nat ->
  length (NER.pad_labels tokens labels x) = length tokens.
Proof.
  intros Hle. unfold NER.pad_labels, str in *.
  rewrite length_app, length_replicate. lia.
Qed.

Lemma Forall_pad_labels (P : list N -> Prop) (tokens labels : list (list N))
    (x : list N) :
  Forall P labels -> P x -> Forall P (NER.pad_labels tokens labels x).
Proof.
  intros Hl Hx. unfold NER.pad_labels. apply Forall_app. split; [done|].
  by apply Forall_replicate.
Qed.

(** What the loop of [offsets_to_io] keeps: as many labels as tokens, labels
    that are ["O"] or the label of an alignment, tokens that [split]
    produced. *)
Lemma io_loop_shape (text_c : list N) (all alignments : list NER.Alignment)
    (tokens labels tokens' labels' : list (list N)) :
  (forall a, a ∈ alignments -> a ∈ all) ->
  NER.io_loop text_c alignments tokens labels = (tokens', labels') ->
  length tokens = length labels ->
  Forall (fun l => l = NER.O \/ exists a, a ∈ all /\ l = NER.label a) labels ->
  Forall (fun t => t ≠ [] /\ Forall (fun c => isspace c = false) t
                   /\ forall c, c ∈ t -> c ∈ text_c) tokens ->
  length tokens' = length labels'
  /\ Forall (fun l => l = NER.O \/ exists a, a ∈ all /\ l = NER.label a) labels'
  /\ Forall (fun t => t ≠ [] /\ Forall (fun c => isspace c = false) t
                      /\ forall c, c ∈ t -> c ∈ text_c) tokens'.
Proof.
  assert (Hslice : forall a b,
    Forall (fun t => t ≠ [] /\ Forall (fun c => isspace c = false) t
                     /\ forall c, c ∈ t -> c ∈ text_c)
           (split (py_slice text_c a b))).
  { intros a b. eapply Forall_impl; [apply split_elem|].
    intros t (? & ? & Hin). split_and!; [done | done |]. intros c Hc.
    destruct (py_slice_infix text_c a b) as (pre & post & Heq).
    rewrite Heq, !elem_of_app. auto. }
  revert tokens labels. induction alignments as [|a rest IH];
    intros tokens labels Hall Hloop Hlen Hlabels Htokens;
    cbn [NER.io_loop] in Hloop.
  - injection Hloop as <- <-. done.
  - assert (Hrest : forall b, b ∈ rest -> b ∈ all).
    { intros b Hb. apply Hall. by right. }
    apply (IH _ _ Hrest Hloop).
    + rewrite length_pad_labels; [done|].
      rewrite length_pad_labels; unfold str in *; rewrite !length_app; lia.
    + apply Forall_pad_labels; [|by left].
      apply Forall_pad_labels; [done|]. right. exists a. split; [|done].
      apply Hall. by left.
    + rewrite !Forall_app. split_and!; [done | apply Hslice |].
      destruct rest; apply Hslice.
Qed.

Lemma replace_with_not_elem (a : N) (b text : list N) :
  a ∉ b -> a ∉ NER.replace_with a b text.
Proof.
  intros Hb. unfold NER.replace_with. rewrite list_elem_of_bind.
  intros (c & Hin & _). destruct (N.eqb_spec c a) as [Heq|Hne]; [done|].
  apply list_elem_of_singleton in Hin. congruence.
Qed.

Lemma Forall_zip {A B : Type} (P : A -> Prop) (Q : B -> Prop)
    (xs : list A) (ys : list B) :
  Forall P xs -> Forall Q ys -> Forall (fun p => P p.1 /\ Q p.2) (zip xs ys).
Proof.
  intros Hxs. revert ys. induction Hxs as [|x xs Hx Hxs IH]; intros ys Hys.
  - constructor.
  - destruct Hys as [|y ys Hy Hys]; simpl; constructor; [done | by apply IH].
Qed.

(** What the backward correction of the [sep] case keeps. *)
Lemma resplit_shape (Pl : list N -> Prop) (pairs : list (list N * list N))
    (out_tokens out_labels out_tokens' out_labels' : list (list N)) :
  fold_left NER.resplit pairs (out_tokens, out_labels) = (out_tokens', out_labels') ->
  Forall (fun p => (p.1 ≠ [] /\ Forall (fun c => isspace c = false) p.1) /\ Pl p.2)
         pairs ->
  length out_tokens = length out_labels ->
  Forall Pl out_labels ->
  Forall (fun t => t ≠ [] /\ Forall (fun c => isspace c = false) t
                   /\ (NER.newline_joker ∉ t)) out_tokens ->
  length out_tokens' = length out_labels'
  /\ Forall Pl out_labels'
  /\ Forall (fun t => t ≠ [] /\ Forall (fun c => isspace c = false) t
                      /\ (NER.newline_joker ∉ t)) out_tokens'.
Proof.
  intros Hfold Hpairs. revert out_tokens out_labels Hfold.
  induction Hpairs as [|[token label] pairs [[Hne Hns] Hl] Hpairs IH];
    intros out_tokens out_labels Hfold Hlen Hlabels Htokens;
    cbn [fold_left] in Hfold.
  - injection Hfold as <- <-. done.
  - cbn [fst snd] in *. unfold NER.resplit in Hfold at 2.
    case_bool_decide as Hjoker; apply (IH _ _ Hfold).
    + unfold str in *. rewrite !length_app, length_replicate. lia.
    + apply Forall_app. split; [done | by apply Forall_replicate].
    + apply Forall_app. split; [done|].
      eapply Forall_impl; [apply split_elem|].
      intros t (? & ? & Hin). split_and!; [done | done |].
      intros Ht%Hin. revert Ht. apply replace_with_not_elem.
      refine (bool_decide_unpack _ _). vm_compute. exact I.
    + unfold str in *. rewrite !length_app. simpl. lia.
    + apply Forall_app. split; [done | by repeat constructor].
    + apply Forall_app. split; [done | by repeat constructor].
Qed.

Lemma offsets_to_io_shape (text : list N) (alignments : list NER.Alignment)
    (sep : bool) (tokens labels : list (list N)) :
  NER.offsets_to_io text alignments sep = Ok (tokens, labels) ->
  length tokens = length labels
  /\ Forall (fun l => l = NER.O \/ exists a, a ∈ alignments /\ l = NER.label a)
            labels
  /\ Forall (fun t => t ≠ [] /\ Forall (fun c => isspace c = false) t
                      /\ (sep = true -> NER.newline_joker ∉ t)) tokens.
Proof.
  unfold NER.offsets_to_io. destruct alignments as [|first rest]; [done|].
  set (text_c := if sep then replace_char LF NER.newline_joker text else text).
  destruct (NER.io_loop text_c (first :: rest) _ _) as [tokens1 labels1] eqn:Hloop.
  apply (io_loop_shape text_c (first :: rest)) in Hloop
    as (Hlen & Hlabels & Htokens); [|done | | |].
  - destruct sep.
    + destruct (fold_left NER.resplit (zip tokens1 labels1) ([], []))
        as [out_tokens out_labels] eqn:Hfold.
      intros [= <- <-].
      apply (resplit_shape
               (fun l => l = NER.O \/ exists a, a ∈ first :: rest /\ l = NER.label a))
        in Hfold as (Hlen' & Hlabels' & Htokens'); [| |done|done|done].
      * split_and!; [done | done |].
        eapply Forall_impl; [exact Htokens'|].
        intros t (? & ? & ?). by split_and!.
      * apply (Forall_zip
                 (fun t => t ≠ [] /\ Forall (fun c => isspace c = false) t)
                 (fun l => l = NER.O
                           \/ exists a, a ∈ first :: rest /\ l = NER.label a));
          [|done].
        eapply Forall_impl; [exact Htokens|]. intros t (? & ? & ?). by split.
    + intros [= <- <-]. split_and!; [done | done |].
      eapply Forall_impl; [exact Htokens|].
      intros t (? & ? & ?). by split_and!.
  - by rewrite length_replicate.
  - apply Forall_replicate. by left.
  - eapply Forall_impl; [apply split_elem|].
    intros t (? & ? & Hin). split_and!; [done | done |]. intros c Hc.
    destruct (py_slice_infix text_c 0 (NER.start first)) as (pre & post & Heq).
    rewrite Heq, !elem_of_app. auto.
Qed.

(** X17: the tokens and labels of [offsets_to_io] go in pairs: there are as
    many labels as tokens, every label is ["O"] or the label of one of the
    alignments, and every token is a non-empty run without whitespace,
    without the stand-in for the line feed when [sep] is set. *)
Theorem offsets_to_io_pairs (text : list N) (alignments : list NER.Alignment)
    (sep : bool) (tokens labels : list (list N)) :
  NER.offsets_to_io text alignments sep = Ok (tokens, labels) ->
  length tokens = length labels
  /\ Forall (fun l => l = NER.O \/ exists a, a ∈ alignments /\ l = NER.label a)
            labels
  /\ Forall (fun t => t ≠ [] /\ Forall (fun c => isspace c = false) t
                      /\ (sep = true -> NER.newline_joker ∉ t)) tokens.
Proof. apply offsets_to_io_shape. Qed.

(** The author and the title of [card1], without and with [sep]. *)
Lemma offsets_to_io_pairs_witness :
  NER.offsets_to_io card1_two_lines card1_spans true
  = Ok ([lit "William"; lit "Shakespeae"; lit "[LF]"; lit "Hamlet"; lit "1603"],
        [lit "O"; lit "Author"; lit "O"; lit "Title"; lit "O"])
  /\ length [lit "William"; lit "Shakespeae"; lit "[LF]"; lit "Hamlet"; lit "1603"]
     = length [lit "O"; lit "Author"; lit "O"; lit "Title"; lit "O"].
Proof.
  assert (H : NER.offsets_to_io card1_two_lines card1_spans true
              = Ok ([lit "William"; lit "Shakespeae"; lit "[LF]"; lit "Hamlet";
                     lit "1603"],
                    [lit "O"; lit "Author"; lit "O"; lit "Title"; lit "O"]))
    by (vm_compute; reflexivity).
  exact (conj H (proj1 (offsets_to_io_pairs _ _ _ _ _ H))).
Defined.

Lemma slice_from_drop (s : list N) (a : Z) :
  0 <= a -> NER.slice_from s a = drop (Z.to_nat a) s.
Proof.
  intros Ha. unfold NER.slice_from, py_slice, adjust_index.
  set (n := Z.of_nat (length s)).
  destruct (Z.ltb_spec a 0); [lia|]. destruct (Z.ltb_spec n 0); [lia|].
  rewrite (Z.min_l n n) by lia.
  destruct (Z.le_gt_cases a n).
  - rewrite Z.min_l by lia. apply take_ge. rewrite length_drop. lia.
  - rewrite Z.min_r by lia. rewrite !drop_ge by lia. by rewrite take_nil.
Qed.

Lemma take_drop_between (s : list N) (a b : Z) :
  0 <= a -> a <= b ->
  py_slice s a b ++ drop (Z.to_nat b) s = drop (Z.to_nat a) s.
Proof.
  intros Ha Hab. rewrite py_slice_take_drop by done.
  replace (Z.to_nat b) with (Z.to_nat a + Z.to_nat (b - a))%nat by lia.
  rewrite <- drop_drop. apply take_drop.
Qed.

(** Over alignments in the order of the text, the loop of [offsets_to_io]
    adds the tokens of the text from the start of the first one on. *)
Lemma io_loop_concat (text_c : list N) (alignments : list NER.Alignment)
    (pos : Z) (tokens labels : list (list N)) :
  0 <= pos ->
  ordered_from pos alignments ->
  concat (NER.io_loop text_c alignments tokens labels).1
  = concat tokens
    ++ match alignments with
       | [] => []
       | first :: _ =>
           filter (fun c => isspace c = false)
                  (drop (Z.to_nat (NER.start first)) text_c)
       end.
Proof.
  revert pos tokens labels.
  induction alignments as [|a rest IH]; intros pos tokens labels Hpos Hord.
  - simpl. by rewrite app_nil_r.
  - destruct Hord as (Hstart & Hend & Hrest). cbn [NER.io_loop].
    erewrite IH; [|shelve|exact Hrest]. Unshelve. 2: lia.
    rewrite !concat_app, !split_concat, <- !app_assoc. f_equal.
    rewrite <- (take_drop_between text_c (NER.start a) (NER.end_ a)) by lia.
    rewrite filter_app. f_equal.
    destruct rest as [|next rest].
    + rewrite slice_from_drop by lia. by rewrite app_nil_r.
    + destruct Hrest as (Hnext & _).
      rewrite <- (take_drop_between text_c (NER.end_ a) (NER.start next)) by lia.
      by rewrite filter_app.
Qed.

(** X18: without [sep], over alignments in the order of the text that do not
    overlap, the tokens of [offsets_to_io] put end to end are the text
    without its whitespace: no code point is lost and none comes twice. *)
Theorem offsets_to_io_keeps_text (text : list N) (alignments : list NER.Alignment)
    (tokens labels : list (list N)) :
  ordered_from 0 alignments ->
  NER.offsets_to_io text alignments false = Ok (tokens, labels) ->
  concat tokens = filter (fun c => isspace c = false) text.
Proof.
  intros Hord. unfold NER.offsets_to_io.
  destruct alignments as [|first rest]; [done|].
  destruct (NER.io_loop text (first :: rest) _ _) as [tokens1 labels1] eqn:Hloop.
  intros [= <- <-].
  pose proof (io_loop_concat text (first :: rest) 0
                (split (py_slice text 0 (NER.start first)))
                (replicate (length (split (py_slice text 0 (NER.start first))))
                           NER.O)
                ltac:(lia) Hord) as Hconcat.
  rewrite Hloop in Hconcat. cbn [fst] in Hconcat. rewrite Hconcat.
  destruct Hord as (Hstart & _).
  rewrite split_concat, <- filter_app. f_equal.
  exact (take_drop_between text 0 (NER.start first) ltac:(lia) Hstart).
Qed.

Lemma offsets_to_io_keeps_text_witness :
  ordered_from 0 card1_spans
  /\ NER.offsets_to_io card1_ocr card1_spans false
     = Ok ([lit "William"; lit "Shakespeae"; lit "Hamlet"; lit "1603"],
           [lit "O"; lit "Author"; lit "Title"; lit "O"])
  /\ concat [lit "William"; lit "Shakespeae"; lit "Hamlet"; lit "1603"]
     = filter (fun c => isspace c = false) card1_ocr.
Proof.
  assert (H0 : ordered_from 0 card1_spans) by (simpl; lia).
  assert (H : NER.offsets_to_io card1_ocr card1_spans false
              = Ok ([lit "William"; lit "Shakespeae"; lit "Hamlet"; lit "1603"],
                    [lit "O"; lit "Author"; lit "Title"; lit "O"]))
    by (vm_compute; reflexivity).
  exact (conj H0 (conj H (offsets_to_io_keeps_text _ _ _ _ H0 H))).
Defined.

(** ** The IOB format *)

Lemma lit_I : lit "I-" = [73; 45]%N.
Proof. reflexivity. Qed.

Lemma lit_B : lit "B-" = [66; 45]%N.
Proof. reflexivity. Qed.

Lemma lit_O : NER.O = [79]%N.
Proof. reflexivity. Qed.

(** Cutting the first two code points off a prefixed label gives the label
    back. *)
Lemma strip_prefix (a b : N) (label : list N) :
  py_slice ([a; b] ++ label) 2 (Z.of_nat (length ([a; b] ++ label))) = label.
Proof.
  rewrite py_slice_take_drop by (simpl; lia). simpl.
  apply take_ge. lia.
Qed.

Lemma remove_format_iob_loop (current : list N) (labels : list (list N)) :
  (fun label => if decide (label = NER.O) then label
                else py_slice label 2 (Z.of_nat (length label)))
  <$> NER.iob_loop current labels = labels.
Proof.
  revert current. induction labels as [|label labels IH]; intros current; [done|].
  cbn [NER.iob_loop]. unfold str in *.
  destruct (decide (label = NER.O)) as [->|Hne].
  - rewrite fmap_cons, IH. by rewrite decide_True.
  - rewrite fmap_cons, IH. f_equal.
    destruct (decide (label = current)); rewrite ?lit_I, ?lit_B, lit_O;
      (rewrite decide_False by (by destruct label)); apply strip_prefix.
Qed.

(** X19: [offsets_to_iob] returns the tokens of [offsets_to_io] with one
    label each, and [remove_format] for the format [I, O, B] turns its labels
    back into those of [offsets_to_io]; for the format [I, O] it leaves
    labels as they are. *)
Theorem remove_format_offsets_to_iob (text : list N)
    (alignments : list NER.Alignment) (sep : bool)
    (tokens labels : list (list N)) :
  NER.offsets_to_io text alignments sep = Ok (tokens, labels) ->
  exists iob,
    NER.offsets_to_iob text alignments sep = Ok (tokens, iob)
    /\ length iob = length tokens
    /\ NER.remove_format [lit "I"; lit "O"; lit "B"] iob = Some labels
    /\ NER.remove_format [lit "I"; lit "O"] labels = Some labels.
Proof.
  intros Hio. destruct (offsets_to_io_shape _ _ _ _ _ Hio) as (Hlen & _ & _).
  unfold NER.offsets_to_iob. rewrite Hio. simpl. unfold str in *.
  rewrite Hlen, firstn_all, drop_all, app_nil_r.
  eexists. split; [reflexivity|]. split_and!.
  - rewrite <- (length_fmap (fun label => if decide (label = NER.O) then label
                      else py_slice label 2 (Z.of_nat (length label)))).
    by rewrite remove_format_iob_loop.
  - unfold NER.remove_format. rewrite decide_True by done. f_equal.
    apply remove_format_iob_loop.
  - unfold NER.remove_format. rewrite decide_False by done.
    by rewrite decide_True.
Qed.

Lemma remove_format_offsets_to_iob_witness :
  NER.offsets_to_io card1_ocr card1_spans false
  = Ok ([lit "William"; lit "Shakespeae"; lit "Hamlet"; lit "1603"],
        [lit "O"; lit "Author"; lit "Title"; lit "O"])
  /\ exists iob,
       NER.offsets_to_iob card1_ocr card1_spans false
       = Ok ([lit "William"; lit "Shakespeae"; lit "Hamlet"; lit "1603"], iob)
       /\ length iob
          = length [lit "William"; lit "Shakespeae"; lit "Hamlet"; lit "1603"]
       /\ NER.remove_format [lit "I"; lit "O"; lit "B"] iob
          = Some [lit "O"; lit "Author"; lit "Title"; lit "O"]
       /\ NER.remove_format [lit "I"; lit "O"]
            [lit "O"; lit "Author"; lit "Title"; lit "O"]
          = Some [lit "O"; lit "Author"; lit "Title"; lit "O"].
Proof.
  assert (H : NER.offsets_to_io card1_ocr card1_spans false
              = Ok ([lit "William"; lit "Shakespeae"; lit "Hamlet"; lit "1603"],
                    [lit "O"; lit "Author"; lit "Title"; lit "O"]))
    by (vm_compute; reflexivity).
  exact (conj H (remove_format_offsets_to_iob _ _ _ _ _ H)).
Defined.

(** In the labels of [iob_loop], an [I-] label at the start continues
    [current], and anywhere else it follows a [B-] or [I-] label of the same
    name. *)
Lemma iob_loop_inside (current : list N) (labels : list (list N)) (i : nat)
    (x : list N) :
  NER.iob_loop current labels !! i = Some (lit "I-" ++ x) ->
  (i = 0%nat /\ x = current /\ x ≠ NER.O)
  \/ exists (j : nat) (p : list N),
       i = S j /\ NER.iob_loop current labels !! j = Some p
       /\ (p = lit "B-" ++ x \/ p = lit "I-" ++ x).
Proof.
  revert current i. induction labels as [|label labels IH]; intros current i;
    [done|].
  cbn [NER.iob_loop]. case_decide as HO.
  - subst label. destruct i as [|i].
    + rewrite lit_I, lit_O. intros [=].
    + rewrite lookup_cons. intros Hi. right.
      destruct (IH _ _ Hi) as [(-> & -> & HxO) | (j & p & -> & Hj & Hp)];
        [done|].
      by exists (S j), p.
  - destruct i as [|i].
    + case_decide as Hcur.
      * subst label. intros [= ->]. by left.
      * rewrite lit_I, lit_B. intros [=].
    + rewrite lookup_cons. intros Hi. right.
      destruct (IH _ _ Hi) as [(-> & -> & HxO) | (j & p & -> & Hj & Hp)].
      * exists 0%nat. case_decide; eexists; eauto.
      * by exists (S j), p.
Qed.

(** X20: in the labels of [offsets_to_iob] an [I-] label never starts a
    field: it follows a [B-] or an [I-] label of the same name, unless it is
    the very first label and the name is empty. *)
Theorem offsets_to_iob_inside (text : list N) (alignments : list NER.Alignment)
    (sep : bool) (tokens iob : list (list N)) (i : nat) (x : list N) :
  NER.offsets_to_iob text alignments sep = Ok (tokens, iob) ->
  iob !! i = Some (lit "I-" ++ x) ->
  (i = 0%nat /\ x = [])
  \/ exists (j : nat) (p : list N),
       i = S j /\ iob !! j = Some p /\ (p = lit "B-" ++ x \/ p = lit "I-" ++ x).
Proof.
  unfold NER.offsets_to_iob.
  destruct (NER.offsets_to_io text alignments sep) as [[tokens0 labels0]|] eqn:Hio;
    simpl; [|done].
  destruct (offsets_to_io_shape _ _ _ _ _ Hio) as (Hlen & _ & _).
  unfold str in *. rewrite Hlen, firstn_all, drop_all, app_nil_r.
  intros [= <- <-] Hi.
  destruct (iob_loop_inside _ _ _ _ Hi) as [(-> & -> & _) | Hprev]; [by left|].
  by right.
Qed.

(** An author over two lines: the second, third and fourth labels continue
    the first. *)
Lemma offsets_to_iob_inside_witness :
  NER.offsets_to_iob card1_two_lines
    [NER.mkAlignment (lit "Author") 0 7; NER.mkAlignment (lit "Author") 8 25] true
  = Ok ([lit "William"; lit "Shakespeae"; lit "[LF]"; lit "Hamlet"; lit "1603"],
        [lit "B-Author"; lit "I-Author"; lit "I-Author"; lit "I-Author"; lit "O"])
  /\ exists (j : nat) (p : list N),
       1%nat = S j
       /\ [lit "B-Author"; lit "I-Author"; lit "I-Author"; lit "I-Author"; lit "O"]
          !! j = Some p
       /\ (p = lit "B-" ++ lit "Author" \/ p = lit "I-" ++ lit "Author").
Proof.
  assert (H : NER.offsets_to_iob card1_two_lines
                [NER.mkAlignment (lit "Author") 0 7;
                 NER.mkAlignment (lit "Author") 8 25] true
              = Ok ([lit "William"; lit "Shakespeae"; lit "[LF]"; lit "Hamlet";
                     lit "1603"],
                    [lit "B-Author"; lit "I-Author"; lit "I-Author";
                     lit "I-Author"; lit "O"])) by (vm_compute; reflexivity).
  split; [exact H|].
  destruct (offsets_to_iob_inside _ _ _ _ _ 1 (lit "Author") H eq_refl)
    as [[Hzero _] | Hprev].
  - discriminate Hzero.
  - exact Hprev.
Defined.

(** * The outputs of the driver *)

(** X21: when the resolver returns no more spans than it is given, the
    score of a candidate is at most the number of atomic fields of its
    record. *)
Theorem match_candidate_score_bound (E : Externals) (ocr : str)
    (db_entries : DbRecord) (printed : list str) (fields : list Field) :
  (forall raw resolved,
     correct_overlaps E raw = Ok resolved -> (length resolved <= length raw)%nat) ->
  match_candidate E ocr db_entries = Ok (printed, fields) ->
  (length fields <= length (atomic_fields E db_entries))%nat.
Proof.
  intros Hresolver. unfold match_candidate.
  destruct (collect_fields E ocr db_entries) as [raw|] eqn:Hraw; simpl; [|done].
  apply collect_fields_from in Hraw as (kept & spans & Hsub & Hspans & ->).
  simpl. apply sublist_length in Hsub.
  rewrite (Forall2_length _ _ _ Hspans) in Hsub.
  destruct (correct_overlaps E spans) as [resolved|] eqn:Hres.
  - intros [= <- <-]. rewrite length_fmap.
    specialize (Hresolver _ _ Hres). lia.
  - intros [= <- <-]. simpl. lia.
Qed.

Lemma match_candidate_score_bound_witness :
  match_candidate quick card1_ocr rec42 = Ok ([], card1_fields)
  /\ (length card1_fields <= length (atomic_fields quick rec42))%nat.
Proof.
  assert (H : match_candidate quick card1_ocr rec42 = Ok ([], card1_fields))
    by (vm_compute; reflexivity).
  refine (conj H (match_candidate_score_bound quick card1_ocr rec42 []
                    card1_fields _ H)).
  intros raw resolved [= <-]. done.
Defined.

(** ** Reading the alignment output back *)

Lemma numeric_not_space (c : N) : numeric c -> isspace c = false.
Proof.
  intros Hc. unfold isspace. apply bool_decide_eq_false.
  assert (Hws : Forall (fun w => (w < 45)%N \/ (57 < w)%N) whitespace).
  { refine (bool_decide_unpack _ _). vm_compute. exact I. }
  intros Hin. apply (proj1 (Forall_forall _ _) Hws) in Hin.
  destruct Hc; lia.
Qed.

Lemma py_str_int_numeric (n : Z) :
  py_str_int n ≠ [] /\ Forall numeric (py_str_int n).
Proof.
  assert (Huint : forall d, Forall numeric (lit (NilEmpty.string_of_uint d))).
  { induction d; cbn [NilEmpty.string_of_uint]; [constructor|..];
      (change (lit (String ?a ?s)) with (N_of_ascii a :: lit s);
       constructor; [left; cbn; lia | assumption]). }
  assert (Hnil : forall d, lit (NilZero.string_of_uint d) ≠ []
                           /\ Forall numeric (lit (NilZero.string_of_uint d))).
  { intros d. destruct d; try (split; [done | apply Huint]).
    split; [done|]. constructor; [left; cbn; lia | constructor]. }
  unfold py_str_int. destruct (Z.to_int n) as [d|d]; simpl.
  - apply Hnil.
  - split; [done|]. constructor; [by right | apply Hnil].
Qed.

(** A run without whitespace is its own only token. *)
Lemma split_go_word (cur word : list N) :
  cur ++ word ≠ [] -> Forall (fun c => isspace c = false) word ->
  split_go cur word = [cur ++ word].
Proof.
  intros Hne Hword. revert cur Hne.
  induction Hword as [|c word Hc Hword IH]; intros cur Hne; simpl.
  - rewrite app_nil_r in *. by destruct cur.
  - rewrite Hc, IH; [by rewrite <- app_assoc|].
    rewrite <- app_assoc. simpl. by destruct cur.
Qed.

Lemma split_word (word : list N) :
  word ≠ [] -> Forall (fun c => isspace c = false) word -> split word = [word].
Proof. intros. by apply (split_go_word [] word). Qed.

(** A part without the separator is cut at the next separator. *)
Lemma split_on_go_part (sep : N) (cur part rest : list N) :
  sep ∉ part ->
  split_on_go sep cur (part ++ sep :: rest)
  = (cur ++ part) :: split_on_go sep [] rest.
Proof.
  revert cur. induction part as [|c part IH]; intros cur Hpart; simpl.
  - rewrite N.eqb_refl. by rewrite app_nil_r.
  - apply not_elem_of_cons in Hpart as [Hne Hpart].
    destruct (N.eqb_spec c sep); [done|].
    rewrite IH by done. by rewrite <- app_assoc.
Qed.

Lemma split_on_go_last (sep : N) (cur part : list N) :
  sep ∉ part -> split_on_go sep cur part = [cur ++ part].
Proof.
  revert cur. induction part as [|c part IH]; intros cur Hpart; simpl.
  - by rewrite app_nil_r.
  - apply not_elem_of_cons in Hpart as [Hne Hpart].
    destruct (N.eqb_spec c sep); [done|].
    rewrite IH by done. by rewrite <- app_assoc.
Qed.

Lemma py_str_int_word (n : Z) :
  py_str_int n ≠ [] /\ Forall (fun c => isspace c = false) (py_str_int n).
Proof.
  destruct (py_str_int_numeric n) as [Hne Hnum]. split; [done|].
  eapply Forall_impl; [exact Hnum|]. apply numeric_not_space.
Qed.

Lemma not_space_not_tab (word : list N) :
  Forall (fun c => isspace c = false) word -> TAB ∉ word.
Proof.
  intros Hword Hin. apply (proj1 (Forall_forall _ _) Hword) in Hin.
  vm_compute in Hin. discriminate.
Qed.

Lemma alignment_line_fold (fields : list Field) (out : list N) :
  fold_left (fun out f_line =>
               out ++ [TAB] ++ label f_line ++ [SPACE] ++ py_str_int (from f_line)
                   ++ [SPACE] ++ py_str_int (to f_line)) fields out
  = out ++ concat ((fun f_line => TAB :: field_text f_line) <$> fields).
Proof.
  revert out. induction fields as [|f_line fields IH]; intros out.
  - simpl. by rewrite app_nil_r.
  - cbn [fold_left]. rewrite IH, fmap_cons. cbn [concat]. unfold field_text.
    repeat (cbn [app]; rewrite <- ?app_assoc). reflexivity.
Qed.

(** The text of a readable span splits into its three tokens, with or
    without the end of the line behind it. *)
Lemma split_field_text (E : Externals) (f_line : Field) (ending : list N) :
  readable E f_line -> ending = [] \/ ending = [LF] ->
  split (field_text f_line ++ ending)
  = [label f_line; py_str_int (from f_line); py_str_int (to f_line)].
Proof.
  intros (Hne & Hlabel & _ & _) Hending.
  destruct (py_str_int_word (from f_line)) as [Hfrom_ne Hfrom].
  destruct (py_str_int_word (to f_line)) as [Hto_ne Hto].
  assert (Hlast : split (py_str_int (to f_line) ++ ending)
                  = [py_str_int (to f_line)]).
  { destruct Hending as [-> | ->].
    - rewrite app_nil_r. by apply split_word.
    - unfold split. rewrite (split_go_app_space [] _ LF []) by done.
      fold (split (py_str_int (to f_line))). by rewrite split_word. }
  assert (Hshape : field_text f_line ++ ending
                   = label f_line
                     ++ SPACE :: (py_str_int (from f_line)
                                  ++ SPACE :: (py_str_int (to f_line) ++ ending))).
  { unfold field_text. repeat (cbn [app]; rewrite <- ?app_assoc). reflexivity. }
  rewrite Hshape. unfold split at 1.
  rewrite (split_go_app_space [] (label f_line) SPACE) by done.
  fold (split (label f_line)). rewrite (split_word (label f_line)) by done.
  unfold split at 1.
  rewrite (split_go_app_space [] (py_str_int (from f_line)) SPACE) by done.
  fold (split (py_str_int (from f_line))).
  rewrite (split_word (py_str_int (from f_line))) by done.
  by rewrite Hlast.
Qed.

Lemma field_text_no_tab (E : Externals) (f_line : Field) :
  readable E f_line -> TAB ∉ field_text f_line ++ [LF].
Proof.
  intros (_ & Hlabel & _ & _). unfold field_text.
  destruct (py_str_int_word (from f_line)) as [_ Hfrom].
  destruct (py_str_int_word (to f_line)) as [_ Hto].
  apply not_space_not_tab in Hlabel, Hfrom, Hto.
  rewrite !elem_of_app, !list_elem_of_singleton.
  assert (TAB ≠ SPACE) by discriminate. assert (TAB ≠ LF) by discriminate.
  tauto.
Qed.

(** The parts into which the tabs cut a line of the alignment output. *)
Lemma split_on_alignment_line (E : Externals) (fields : list Field)
    (cur first : list N) :
  TAB ∉ first -> fields ≠ [] -> Forall (readable E) fields ->
  exists parts,
    split_on_go TAB cur
      (first ++ concat ((fun f_line => TAB :: field_text f_line) <$> fields) ++ [LF])
    = (cur ++ first) :: parts
    /\ Forall2 (fun part f_line =>
                  split part = [label f_line; py_str_int (from f_line);
                                py_str_int (to f_line)])
               parts fields.
Proof.
  intros Hfirst Hne Hfields. revert cur first Hfirst.
  induction Hfields as [|f_line fields Hf Hfields IH]; [done|].
  intros cur first Hfirst. rewrite fmap_cons. cbn [concat].
  set (rest := concat ((fun f => TAB :: field_text f) <$> fields)) in *.
  assert (Hshape : first ++ ((TAB :: field_text f_line) ++ rest) ++ [LF]
                   = first ++ TAB :: (field_text f_line ++ rest ++ [LF])).
  { cbn [app]. by rewrite <- app_assoc. }
  rewrite Hshape, split_on_go_part by done. subst rest.
  destruct fields as [|f' fields].
  - exists [field_text f_line ++ [LF]]. split.
    + f_equal. cbn [fmap list_fmap concat app].
      rewrite (split_on_go_last TAB []); [done|].
      by apply (field_text_no_tab E).
    + constructor; [|constructor]. apply (split_field_text E); auto.
  - destruct (IH ltac:(done) [] (field_text f_line)) as (parts & Hparts & Hall).
    { intros Hin. apply (field_text_no_tab E f_line Hf).
      apply elem_of_app. by left. }
    exists (field_text f_line :: parts). split.
    + f_equal. exact Hparts.
    + constructor; [|done].
      rewrite <- (app_nil_r (field_text f_line)).
      apply (split_field_text E); auto.
Qed.

(** Reading parts that split into the tokens of readable spans never raises
    and groups the slices like the spans. *)
Lemma parse_alignments_of_spans (E : Externals) (ocr : str) (parts : list str)
    (fields : list Field) :
  Forall2 (fun part f_line =>
             split part = [label f_line; py_str_int (from f_line);
                           py_str_int (to f_line)])
          parts fields ->
  Forall (readable E) fields ->
  (forall res, exists d, for_each (parse_alignment E ocr) res parts = Ok d)
  /\ forall wanted,
       slices_of_label E ocr parts wanted = slices_of_spans ocr fields wanted.
Proof.
  induction 1 as [|part f_line parts fields Hpart Hparts IH].
  - intros _. split; [by eexists|done].
  - intros [(_ & _ & Hfrom & Hto) Hfields]%Forall_cons.
    destruct (IH Hfields) as [Hloop Hslices]. split.
    + intros res. cbn [for_each].
      assert (Hstep : parse_alignment E ocr res part
                      = Ok (dict_append res (label f_line)
                              (py_slice ocr (from f_line) (to f_line)))).
      { unfold parse_alignment. by rewrite Hpart, Hfrom, Hto. }
      rewrite Hstep. apply Hloop.
    + intros wanted. unfold slices_of_label, slices_of_spans in *.
      rewrite !bind_cons, Hpart, Hfrom, Hto. f_equal. apply Hslices.
Qed.

(** X22: a line that the driver writes to its alignment output is a line it
    can read: for a card path without a tab and at least one span, each with
    a one-token label and offsets that [int] reads back, the path is
    recovered and [parse_alignments] returns, under every label, the slices
    of the card text at the spans of that label. *)
Theorem alignment_line_reads_back (E : Externals) (m : MatchResult) (ocr : str) :
  TAB ∉ card m -> alignment m ≠ [] -> Forall (readable E) (alignment m) ->
  card_path (alignment_line m) = card m
  /\ exists d,
       parse_alignments E (card_alignments (alignment_line m)) ocr = Ok d
       /\ forall wanted,
            default [] (NER.dict_get d wanted)
            = slices_of_spans ocr (alignment m) wanted.
Proof.
  intros Hcard Hne Hfields.
  destruct (split_on_alignment_line E (alignment m) [] (card m) Hcard Hne Hfields)
    as (parts & Hparts & Hall).
  unfold card_path, card_alignments, alignment_line, split_on.
  rewrite alignment_line_fold, <- app_assoc, Hparts. simpl. split; [done|].
  destruct (parse_alignments_of_spans E ocr parts (alignment m) Hall Hfields)
    as [Hloop Hslices].
  destruct (Hloop []) as [d Hd]. exists d. split; [exact Hd|].
  intros wanted.
  destruct (parse_alignments_from E ocr parts [] d Hd) as (_ & _ & Hget).
  { constructor. }
  by rewrite Hget, Hslices.
Qed.

Lemma alignment_line_reads_back_witness :
  (TAB ∉ card card1_result) /\ alignment card1_result ≠ []
  /\ Forall (readable quick) (alignment card1_result)
  /\ card_path (alignment_line card1_result) = card card1_result
  /\ exists d,
       parse_alignments quick (card_alignments (alignment_line card1_result))
         card1_ocr = Ok d
       /\ forall wanted,
            default [] (NER.dict_get d wanted)
            = slices_of_spans card1_ocr (alignment card1_result) wanted.
Proof.
  assert (H1 : TAB ∉ card card1_result).
  { refine (bool_decide_unpack _ _). vm_compute. exact I. }
  assert (H2 : alignment card1_result ≠ []) by done.
  assert (H3 : Forall (readable quick) (alignment card1_result)).
  { repeat constructor; try done;
      try (refine (bool_decide_unpack _ _); vm_compute; exact I). }
  exact (conj H1 (conj H2 (conj H3
           (alignment_line_reads_back quick card1_result card1_ocr H1 H2 H3)))).
Defined.

(** * What a card with candidates emits *)

(** C3: for a card whose search returns candidates, the score of each is the
    number of spans its overlap resolution leaves; the card is counted; when
    the highest score reaches the threshold, exactly one line is added to
    each output, naming the first candidate, in retrieval order, of the
    highest score, with that score and its spans; when it does not, nothing
    is added to either output. *)
Theorem emitted_first_highest_score (E : Externals) (min_matched_lines : Z)
    (txn_ocr : gmap (list N) str) (txn_bib : gmap (list N) DbRecord)
    (st : Run) (line : str) (ocr : str) (parsed : Alignments)
    (results : list Hit) (records : list DbRecord) (printed : list str)
    (matches : list (list Field)) :
  load_ocr (strip (card_path line)) txn_ocr = Ok ocr ->
  parse_alignments E (card_alignments line) ocr = Ok parsed ->
  search_phrase E (searches st) parsed ocr = Ok results ->
  results ≠ [] ->
  fetch_records txn_bib results = Ok records ->
  verify_all E ocr records = Ok (printed, matches) ->
  (forall (i : nat) (r : DbRecord) (raw : list Field),
     records !! i = Some r -> collect_fields E ocr r = Ok raw ->
     match correct_overlaps E raw with
     | Ok resolved => match_scores matches !! i = Some (Z.of_nat (length resolved))
     | Raise _ => match_scores matches !! i = Some 0
     end)
  /\ exists st',
       process_card E min_matched_lines txn_ocr txn_bib st line = Ok st'
       /\ nb_cards_searched st' = nb_cards_searched st + 1
       /\ (py_max (match_scores matches) < min_matched_lines ->
           matching_output st' = matching_output st
           /\ alignment_output st' = alignment_output st)
       /\ (min_matched_lines <= py_max (match_scores matches) ->
           exists (i : nat) (hit : Hit) (fields : list Field),
             results !! i = Some hit /\ matches !! i = Some fields
             /\ matching_output st'
                = matching_output st ++ card_path line ++ [TAB] ++ record_id hit
                  ++ [TAB] ++ py_str_int (Z.of_nat (length fields)) ++ [LF]
             /\ alignment_output st'
                = alignment_output st ++ card_path line
                  ++ concat ((fun f_line =>
                                [TAB] ++ label f_line ++ [SPACE]
                                ++ py_str_int (from f_line) ++ [SPACE]
                                ++ py_str_int (to f_line)) <$> fields)
                  ++ [LF]
             /\ forall (j : nat) (other : list Field), matches !! j = Some other ->
                  (length other <= length fields)%nat
                  /\ (length other = length fields -> (i <= j)%nat)).
Proof.
  intros Hocr Hparsed Hsearch Hne Hfetch Hverify.
  pose proof (fetch_records_length _ _ _ Hfetch) as Hlen.
  destruct (verify_all_lookup _ _ _ _ _ Hverify) as [Hlen' _].
  assert (Hrecords : records ≠ []).
  { intros ->. by destruct results. }
  assert (Hmatches : matches ≠ []).
  { intros ->. by destruct records. }
  destruct (select_names_first_highest E ocr min_matched_lines (card_path line)
              results records printed matches Hrecords (eq_sym Hlen) Hverify)
    as (Hscores & Hlow & Hhigh).
  split; [exact Hscores|].
  destruct (Z.lt_ge_cases (py_max (match_scores matches)) min_matched_lines)
    as [Hbelow | Hreached].
  - destruct (process_card_outputs E min_matched_lines txn_ocr txn_bib st line
                ocr parsed results records printed matches None
                Hocr Hparsed Hsearch Hfetch Hverify Hmatches (Hlow Hbelow))
      as (st' & Hst' & Hm & Ha).
    exists st'. split; [exact Hst'|].
    split; [by apply (process_card_counts _ _ _ _ _ _ _ Hst')|].
    split; [|lia]. intros _. simpl in Hm, Ha. by rewrite app_nil_r in Hm, Ha.
  - destruct (Hhigh Hreached) as (i & hit & fields & Hi & Hfields & Hselect & Hfirst).
    destruct (process_card_outputs E min_matched_lines txn_ocr txn_bib st line
                ocr parsed results records printed matches _
                Hocr Hparsed Hsearch Hfetch Hverify Hmatches Hselect)
      as (st' & Hst' & Hm & Ha).
    exists st'. split; [exact Hst'|].
    split; [by apply (process_card_counts _ _ _ _ _ _ _ Hst')|].
    split; [lia|]. intros _. exists i, hit, fields.
    split; [exact Hi|]. split; [exact Hfields|].
    split; [exact Hm|]. split; [|exact Hfirst].
    rewrite Ha. cbn [from_option]. unfold alignment_line. cbn [alignment card].
    rewrite alignment_line_fold, <- !app_assoc. do 2 f_equal.
Qed.

(** [card1] with the candidates [rec7], which scores 0, and [rec42], which
    scores 2: with the threshold 2 the lines of [rec42] are written. *)
Lemma emitted_first_highest_score_witness :
  load_ocr (strip (card_path card1_line)) ocr_store = Ok card1_ocr
  /\ parse_alignments two_hits (card_alignments card1_line) card1_ocr
     = Ok card1_alignments
  /\ search_phrase two_hits 0 card1_alignments card1_ocr
     = Ok [mkHit (lit "rec7"); mkHit (lit "rec42")]
  /\ fetch_records bib_store [mkHit (lit "rec7"); mkHit (lit "rec42")]
     = Ok [rec7; rec42]
  /\ verify_all two_hits card1_ocr [rec7; rec42] = Ok ([], [[]; card1_fields])
  /\ exists st',
       process_card two_hits 2 ocr_store bib_store initial_run card1_line = Ok st'
       /\ nb_cards_searched st' = 1
       /\ matching_output st'
          = lit "card1" ++ [TAB] ++ lit "rec42" ++ [TAB] ++ lit "2" ++ [LF]
       /\ alignment_output st'
          = lit "card1" ++ [TAB] ++ lit "Author 8 18" ++ [TAB]
            ++ lit "Title 19 25" ++ [LF].
Proof.
  assert (H1 : load_ocr (strip (card_path card1_line)) ocr_store = Ok card1_ocr)
    by (vm_compute; reflexivity).
  assert (H2 : parse_alignments two_hits (card_alignments card1_line) card1_ocr
               = Ok card1_alignments) by (vm_compute; reflexivity).
  assert (H3 : search_phrase two_hits (searches initial_run) card1_alignments
                 card1_ocr = Ok [mkHit (lit "rec7"); mkHit (lit "rec42")])
    by (vm_compute; reflexivity).
  assert (H4 : [mkHit (lit "rec7"); mkHit (lit "rec42")] ≠ []) by discriminate.
  assert (H5 : fetch_records bib_store [mkHit (lit "rec7"); mkHit (lit "rec42")]
               = Ok [rec7; rec42]) by (vm_compute; reflexivity).
  assert (H6 : verify_all two_hits card1_ocr [rec7; rec42]
               = Ok ([], [[]; card1_fields])) by (vm_compute; reflexivity).
  split; [exact H1|]. split; [exact H2|]. split; [exact H3|].
  split; [exact H5|]. split; [exact H6|].
  destruct (emitted_first_highest_score two_hits 2 ocr_store bib_store
              initial_run card1_line card1_ocr card1_alignments
              [mkHit (lit "rec7"); mkHit (lit "rec42")] [rec7; rec42] []
              [[]; card1_fields] H1 H2 H3 H4 H5 H6)
    as (_ & st' & Hst' & Hcount & _ & Hhigh).
  exists st'. split; [exact Hst'|]. split; [exact Hcount|].
  destruct (Hhigh ltac:(vm_compute; congruence))
    as (i & hit & fields & Hi & Hfields & Hm & Ha & Hfirst).
  assert (i = 1%nat) as ->.
  { destruct i as [|[|i]]; [|done|done].
    injection Hfields as <-.
    destruct (Hfirst 1%nat card1_fields eq_refl) as [Hle _]. simpl in Hle. lia. }
  injection Hi as <-. injection Hfields as <-.
  split; [rewrite Hm | rewrite Ha]; vm_compute; reflexivity.
Defined.
